(** * Bot-to-Bot Protocol: parser, builder and conversation state store

    A shallow embedding of [lib/parser.js], [lib/builder.js] and
    [lib/state.js], and the properties of the protocol specification
    established (or refuted) on it.

    JavaScript strings are sequences of UTF-16 code units; they are modelled
    as [list N].  The regular expressions of the source carry no [u] flag,
    so they work on code units as well.  JavaScript objects used as
    dictionaries ([meta], the persisted state) are [gmap]s keyed by
    strings. *)

From Stdlib Require Import ZArith NArith Lia String Ascii List Decimal.
From Stdlib Require DecimalPos DecimalN.
From stdpp Require Import gmap list.
Import ListNotations.

Abbreviation jsstring := (list N).

(** ASCII literals. *)
Definition js (s : string) : jsstring :=
  List.map N_of_ascii (list_ascii_of_string s).

(** ** JavaScript values: truthiness of a string-or-null *)

(** [null]/[undefined] are [None]; the empty string is falsy too. *)
Definition truthy (v : option jsstring) : bool :=
  match v with
  | Some (_ :: _) => true
  | _ => false
  end.

(** [a || b] on string-or-null operands. *)
Definition js_or (a b : option jsstring) : option jsstring :=
  if truthy a then a else b.

(** ** Character classes *)

Definition in_range (lo hi c : N) : bool := (lo <=? c)%N && (c <=? hi)%N.

(** [\s], and the set removed by [String.prototype.trim]: WhiteSpace and
    LineTerminator of ECMAScript. *)
Definition isWhiteSpace (c : N) : bool :=
  in_range 9 13 c || (c =? 32)%N || (c =? 160)%N || (c =? 5760)%N
  || in_range 8192 8202 c || (c =? 8232)%N || (c =? 8233)%N
  || (c =? 8239)%N || (c =? 8287)%N || (c =? 12288)%N || (c =? 65279)%N.

(** [\S] *)
Definition isNonSpace (c : N) : bool := negb (isWhiteSpace c).

(** [\d] *)
Definition isDigit (c : N) : bool := in_range 48 57 c.

(** [[A-Za-z]] *)
Definition isLetter (c : N) : bool := in_range 65 90 c || in_range 97 122 c.

(** [\w] *)
Definition isWordChar (c : N) : bool := isLetter c || isDigit c || (c =? 95)%N.

(** What [.] refuses without the [s] flag: LF, CR, LS, PS. *)
Definition isLineTerminator (c : N) : bool :=
  (c =? 10)%N || (c =? 13)%N || (c =? 8232)%N || (c =? 8233)%N.

(** [.] *)
Definition isDot (c : N) : bool := negb (isLineTerminator c).

(** [[^`]] *)
Definition notBacktick (c : N) : bool := negb (c =? 96)%N.

(** ** String primitives *)

Fixpoint takeWhile (p : N -> bool) (s : jsstring) : jsstring :=
  match s with
  | c :: s' => if p c then c :: takeWhile p s' else []
  | [] => []
  end.

Fixpoint dropWhile (p : N -> bool) (s : jsstring) : jsstring :=
  match s with
  | c :: s' => if p c then dropWhile p s' else s
  | [] => []
  end.

Definition trimStart (s : jsstring) : jsstring := dropWhile isWhiteSpace s.
Definition trimEnd (s : jsstring) : jsstring := rev (dropWhile isWhiteSpace (rev s)).

(** [s.trim()] *)
Definition trim (s : jsstring) : jsstring := trimEnd (trimStart s).

(** [s.split('\n')]; never empty: [''.split('\n')] is [['']]. *)
Fixpoint split_lines (s : jsstring) : list jsstring :=
  match s with
  | [] => [[]]
  | c :: s' =>
      if (c =? 10)%N then [] :: split_lines s'
      else match split_lines s' with
           | l :: ls => (c :: l) :: ls
           | [] => [[c]]
           end
  end.

(** [parts.join('\n')] *)
Fixpoint join_lines (parts : list jsstring) : jsstring :=
  match parts with
  | [] => []
  | [p] => p
  | p :: rest => p ++ 10%N :: join_lines rest
  end.

Fixpoint starts_with (pre s : jsstring) : option jsstring :=
  match pre, s with
  | [], _ => Some s
  | a :: pre', b :: s' => if (a =? b)%N then starts_with pre' s' else None
  | _ :: _, [] => None
  end.

Definition str_eqb (a b : jsstring) : bool := bool_decide (a = b).

(** [arr.includes(x)] on an array of strings. *)
Definition includes (arr : list jsstring) (x : jsstring) : bool :=
  existsb (str_eqb x) arr.

(** [s.toLowerCase()], one code unit at a time.  ASCII capitals are lowered.
    Outside ASCII only the two code units whose lower case is, or starts
    with, an ASCII letter are told apart (KELVIN SIGN, and capital I with
    dot above); every other code unit lower-cases to text outside ASCII and
    is left as it is.  Both callers below see the exact result: the parser
    lower-cases keys made of [[A-Za-z]] only, and [generateRequestId]
    deletes everything outside [[a-z0-9]] afterwards. *)
Definition lowerUnit (c : N) : jsstring :=
  if in_range 65 90 c then [(c + 32)%N]
  else if (c =? 8490)%N then [107%N]
  else if (c =? 304)%N then [105%N; 775%N]
  else [c].

Definition toLowerCase (s : jsstring) : jsstring := flat_map lowerUnit s.

(** [s.replace(/[-_]/g, '')] *)
Definition stripHyphens (s : jsstring) : jsstring :=
  List.filter (fun c => negb ((c =? 45)%N || (c =? 95)%N)) s.

(** ** Decimal numbers *)

Fixpoint uint_units (d : Decimal.uint) : jsstring :=
  match d with
  | Nil => []
  | D0 d => 48%N :: uint_units d
  | D1 d => 49%N :: uint_units d
  | D2 d => 50%N :: uint_units d
  | D3 d => 51%N :: uint_units d
  | D4 d => 52%N :: uint_units d
  | D5 d => 53%N :: uint_units d
  | D6 d => 54%N :: uint_units d
  | D7 d => 55%N :: uint_units d
  | D8 d => 56%N :: uint_units d
  | D9 d => 57%N :: uint_units d
  end.

(** [String(n)] / the template conversion of an integer number.  (Numbers
    are integers here: a depth is a hop count and a time is a count of
    milliseconds.) *)
Definition show_N (n : N) : jsstring := uint_units (N.to_uint n).

Definition show_Z (z : Z) : jsstring :=
  match z with
  | Zneg p => 45%N :: show_N (Npos p)
  | _ => show_N (Z.to_N z)
  end.

(** [parseInt(s, 10)] on a string already matched by [\d+]. *)
Definition parseInt (s : jsstring) : N :=
  fold_left (fun acc c => (acc * 10 + (c - 48))%N) s 0%N.

(** * The parser ([lib/parser.js]) *)

Module Parser.

Definition REQUEST : jsstring := Eval cbv in js "REQUEST".
Definition RESPONSE : jsstring := Eval cbv in js "RESPONSE".
Definition CLARIFY : jsstring := Eval cbv in js "CLARIFY".
Definition HANDOFF : jsstring := Eval cbv in js "HANDOFF".
Definition BROADCAST : jsstring := Eval cbv in js "BROADCAST".

Definition VALID_TYPES : list jsstring :=
  [REQUEST; RESPONSE; CLARIFY; HANDOFF; BROADCAST].
Definition VALID_STATUSES : list jsstring :=
  Eval cbv in [js "done"; js "partial"; js "failed"].
Definition VALID_PRIORITIES : list jsstring :=
  Eval cbv in [js "low"; js "normal"; js "high"].

(** The [depth] property holds [null], then the text saved by [saveField],
    and at the end of [parse] possibly the object [{current, max}]. *)
Inductive DepthValue :=
| DepthNull
| DepthText (s : jsstring)
| DepthPair (current max : N).

(** The object built by [parse]. *)
Record Message := {
  type : jsstring;
  to : jsstring;
  from : option jsstring;
  requestId : option jsstring;
  task : option jsstring;
  result : option jsstring;
  context : option jsstring;
  depth : DepthValue;
  callback : option jsstring;
  priority : option jsstring;
  status : option jsstring;
  question : option jsstring;
  message : option jsstring;
  meta : gmap (list N) (list N);
  raw : jsstring
}.

Definition set_from (v : option jsstring) (r : Message) : Message :=
  {| type := type r; to := to r; from := v; requestId := requestId r;
     task := task r; result := result r; context := context r;
     depth := depth r; callback := callback r; priority := priority r;
     status := status r; question := question r; message := message r;
     meta := meta r; raw := raw r |}.

Definition set_requestId (v : option jsstring) (r : Message) : Message :=
  {| type := type r; to := to r; from := from r; requestId := v;
     task := task r; result := result r; context := context r;
     depth := depth r; callback := callback r; priority := priority r;
     status := status r; question := question r; message := message r;
     meta := meta r; raw := raw r |}.

Definition set_task (v : option jsstring) (r : Message) : Message :=
  {| type := type r; to := to r; from := from r; requestId := requestId r;
     task := v; result := result r; context := context r; depth := depth r;
     callback := callback r; priority := priority r; status := status r;
     question := question r; message := message r; meta := meta r;
     raw := raw r |}.

Definition set_result (v : option jsstring) (r : Message) : Message :=
  {| type := type r; to := to r; from := from r; requestId := requestId r;
     task := task r; result := v; context := context r; depth := depth r;
     callback := callback r; priority := priority r; status := status r;
     question := question r; message := message r; meta := meta r;
     raw := raw r |}.

Definition set_context (v : option jsstring) (r : Message) : Message :=
  {| type := type r; to := to r; from := from r; requestId := requestId r;
     task := task r; result := result r; context := v; depth := depth r;
     callback := callback r; priority := priority r; status := status r;
     question := question r; message := message r; meta := meta r;
     raw := raw r |}.

Definition set_depth (v : DepthValue) (r : Message) : Message :=
  {| type := type r; to := to r; from := from r; requestId := requestId r;
     task := task r; result := result r; context := context r; depth := v;
     callback := callback r; priority := priority r; status := status r;
     question := question r; message := message r; meta := meta r;
     raw := raw r |}.

Definition set_callback (v : option jsstring) (r : Message) : Message :=
  {| type := type r; to := to r; from := from r; requestId := requestId r;
     task := task r; result := result r; context := context r;
     depth := depth r; callback := v; priority := priority r;
     status := status r; question := question r; message := message r;
     meta := meta r; raw := raw r |}.

Definition set_priority (v : option jsstring) (r : Message) : Message :=
  {| type := type r; to := to r; from := from r; requestId := requestId r;
     task := task r; result := result r; context := context r;
     depth := depth r; callback := callback r; priority := v;
     status := status r; question := question r; message := message r;
     meta := meta r; raw := raw r |}.

Definition set_status (v : option jsstring) (r : Message) : Message :=
  {| type := type r; to := to r; from := from r; requestId := requestId r;
     task := task r; result := result r; context := context r;
     depth := depth r; callback := callback r; priority := priority r;
     status := v; question := question r; message := message r;
     meta := meta r; raw := raw r |}.

Definition set_question (v : option jsstring) (r : Message) : Message :=
  {| type := type r; to := to r; from := from r; requestId := requestId r;
     task := task r; result := result r; context := context r;
     depth := depth r; callback := callback r; priority := priority r;
     status := status r; question := v; message := message r; meta := meta r;
     raw := raw r |}.

Definition set_message (v : option jsstring) (r : Message) : Message :=
  {| type := type r; to := to r; from := from r; requestId := requestId r;
     task := task r; result := result r; context := context r;
     depth := depth r; callback := callback r; priority := priority r;
     status := status r; question := question r; message := v;
     meta := meta r; raw := raw r |}.

Definition set_meta (v : gmap (list N) (list N)) (r : Message) : Message :=
  {| type := type r; to := to r; from := from r; requestId := requestId r;
     task := task r; result := result r; context := context r;
     depth := depth r; callback := callback r; priority := priority r;
     status := status r; question := question r; message := message r;
     meta := v; raw := raw r |}.

(** *** The four regular expressions

    Each is written out as the deterministic matcher it denotes; the
    comments say why backtracking cannot find any other match. *)

(** [rawText.match(/```([^`]+)```/s)] tried at the start of [s]: three
    backticks, a non-empty run without backtick, three backticks.  The run
    is greedy, and a shorter run would be followed by a character that is
    not a backtick, so only the maximal run can be followed by the closing
    fence. *)
Definition fence : jsstring := [96%N; 96%N; 96%N].

Definition codeBlockAt (s : jsstring) : option jsstring :=
  match starts_with fence s with
  | Some rest =>
      match takeWhile notBacktick rest with
      | [] => None
      | body =>
          match starts_with fence (dropWhile notBacktick rest) with
          | Some _ => Some body
          | None => None
          end
      end
  | None => None
  end.

(** The leftmost match; the result is capture group 1. *)
Fixpoint codeBlockMatch (s : jsstring) : option jsstring :=
  match codeBlockAt s with
  | Some body => Some body
  | None =>
      match s with
      | [] => None
      | _ :: s' => codeBlockMatch s'
      end
  end.

(** Splits [s] into all but its last unit, and its last unit. *)
Fixpoint unsnoc (s : jsstring) : option (jsstring * N) :=
  match s with
  | [] => None
  | [c] => Some ([], c)
  | c :: s' =>
      match unsnoc s' with
      | Some (i, l) => Some (c :: i, l)
      | None => None
      end
  end.

(** A literal character of a pattern: the rest of [s] after [c]. *)
Definition expect (c : N) (s : jsstring) : option jsstring :=
  match s with
  | x :: r => if (x =? c)%N then Some r else None
  | [] => None
  end.

(** [lines[0].match(/^\[(\w+)\s*→\s*@(\S+)\]$/)], groups 1 and 2.  The
    runs [\w+] and [\s*] are maximal because the literal that follows each
    of them ([→], [@], or white space after a word) lies outside the class;
    [(\S+)\]$] must consume the rest of the line, so the last unit is the
    bracket and group 2 is everything before it. *)
Definition headerMatch (line : jsstring) : option (jsstring * jsstring) :=
  match expect 91 line with
  | Some r =>
      match takeWhile isWordChar r with
      | [] => None
      | ty =>
          match expect 8594 (dropWhile isWhiteSpace (dropWhile isWordChar r)) with
          | Some r1 =>
              match expect 64 (dropWhile isWhiteSpace r1) with
              | Some r2 =>
                  match unsnoc r2 with
                  | Some (c :: rcpt, last) =>
                      if (last =? 93)%N && forallb isNonSpace (c :: rcpt)
                      then Some (ty, c :: rcpt) else None
                  | _ => None
                  end
              | None => None
              end
          | None => None
          end
      end
  | None => None
  end.

(** The field-line pattern [^([A-Za-z]+):\s*] followed by the group
    [.*] and [$]; groups 1 and 2.  [\s*] is greedy; if what follows the
    maximal white-space run contains a line terminator, so does what follows
    any shorter run, and the dots cannot reach the end of the line. *)
Definition kvMatch (line : jsstring) : option (jsstring * jsstring) :=
  match takeWhile isLetter line with
  | [] => None
  | key =>
      match expect 58 (dropWhile isLetter line) with
      | Some r =>
          let value := dropWhile isWhiteSpace r in
          if forallb isDot value then Some (key, value) else None
      | None => None
      end
  end.

(** [text.match(/^(\d+)\/(\d+)$/)], groups 1 and 2. *)
Definition depthMatch (text : jsstring) : option (jsstring * jsstring) :=
  match takeWhile isDigit text with
  | [] => None
  | cur =>
      match expect 47 (dropWhile isDigit text) with
      | Some (c :: r) =>
          if forallb isDigit (c :: r) then Some (cur, c :: r) else None
      | _ => None
      end
  end.

(** *** saveField *)

Definition k_from : jsstring := Eval cbv in js "from".
Definition k_requestid : jsstring := Eval cbv in js "requestid".
Definition k_task : jsstring := Eval cbv in js "task".
Definition k_result : jsstring := Eval cbv in js "result".
Definition k_context : jsstring := Eval cbv in js "context".
Definition k_depth : jsstring := Eval cbv in js "depth".
Definition k_callback : jsstring := Eval cbv in js "callback".
Definition k_priority : jsstring := Eval cbv in js "priority".
Definition k_status : jsstring := Eval cbv in js "status".
Definition k_question : jsstring := Eval cbv in js "question".
Definition k_message : jsstring := Eval cbv in js "message".

Definition knownFields : list jsstring :=
  [k_from; k_requestid; k_task; k_result; k_context; k_depth;
   k_callback; k_priority; k_status; k_question; k_message].

(** [result[normalizedKey] = cleanValue] for a known field other than
    [requestid]. *)
Definition setProp (key v : jsstring) (r : Message) : Message :=
  if str_eqb key k_from then set_from (Some v) r
  else if str_eqb key k_task then set_task (Some v) r
  else if str_eqb key k_result then set_result (Some v) r
  else if str_eqb key k_context then set_context (Some v) r
  else if str_eqb key k_depth then set_depth (DepthText v) r
  else if str_eqb key k_callback then set_callback (Some v) r
  else if str_eqb key k_priority then set_priority (Some v) r
  else if str_eqb key k_status then set_status (Some v) r
  else if str_eqb key k_question then set_question (Some v) r
  else if str_eqb key k_message then set_message (Some v) r
  else r.

Definition saveField (r : Message) (key value : jsstring) : Message :=
  let cleanValue := trim value in
  let normalizedKey := stripHyphens (toLowerCase key) in
  let isKnown := includes knownFields normalizedKey in
  if isKnown then
    let r1 :=
      if str_eqb normalizedKey k_requestid
      then set_requestId (Some cleanValue) r
      else setProp normalizedKey cleanValue r in
    let r2 :=
      if str_eqb normalizedKey k_status
         && negb (includes VALID_STATUSES cleanValue)
      then set_status None r1 else r1 in
    if str_eqb normalizedKey k_priority
       && negb (includes VALID_PRIORITIES cleanValue)
    then set_priority None r2 else r2
  else
    set_meta (<[key := cleanValue]> (meta r)) r.

(** *** parse *)

(** The variables of the scanning loop: [result], [currentKey],
    [currentValue]. *)
Record Scan := {
  acc : Message;
  currentKey : option jsstring;
  currentValue : list jsstring
}.

(** [if (currentKey) saveField(result, currentKey, currentValue.join('\n'))] *)
Definition flush (s : Scan) : Message :=
  match currentKey s with
  | Some (c :: k) => saveField (acc s) (c :: k) (join_lines (currentValue s))
  | _ => acc s
  end.

(** One iteration of [for (let i = 1; i < lines.length; i++)]. *)
Definition scanLine (s : Scan) (line : jsstring) : Scan :=
  match kvMatch line with
  | Some (key, value) =>
      {| acc := flush s;
         currentKey := Some (toLowerCase key);
         currentValue := [value] |}
  | None =>
      if truthy (currentKey s)
      then {| acc := acc s;
              currentKey := currentKey s;
              currentValue := currentValue s ++ [line] |}
      else s
  end.

Definition emptyMessage (ty rcpt rawText : jsstring) : Message :=
  {| type := ty; to := rcpt; from := None; requestId := None; task := None;
     result := None; context := None; depth := DepthNull; callback := None;
     priority := None; status := None; question := None; message := None;
     meta := ∅; raw := rawText |}.

(** [if (result.depth) { ... }] *)
Definition parseDepth (r : Message) : Message :=
  match depth r with
  | DepthText (c :: t) =>
      match depthMatch (c :: t) with
      | Some (cur, mx) => set_depth (DepthPair (parseInt cur) (parseInt mx)) r
      | None => set_depth DepthNull r
      end
  | _ => r
  end.

(** The type-specific required fields. *)
Definition typeFieldsMissing (ty : jsstring) (r : Message) : bool :=
  (str_eqb ty REQUEST && negb (truthy (task r)))
  || (str_eqb ty RESPONSE && negb (truthy (result r)) && negb (truthy (status r)))
  || (str_eqb ty CLARIFY && negb (truthy (question r)))
  || (str_eqb ty HANDOFF && negb (truthy (task r)))
  || (str_eqb ty BROADCAST && negb (truthy (message r))).

(** The scanning loop over [lines[1..]], and the final save. *)
Definition scanFields (start : Message) (body : list jsstring) : Message :=
  flush (fold_left scanLine body
           {| acc := start; currentKey := None; currentValue := [] |}).

Definition parse (rawText : jsstring) : option Message :=
  match rawText with
  | [] => None
  | _ =>
      match codeBlockMatch rawText with
      | None => None
      | Some block =>
          match split_lines (trim block) with
          | [] => None
          | header :: body =>
              match headerMatch header with
              | None => None
              | Some (ty, rcpt) =>
                  if negb (includes VALID_TYPES ty) then None
                  else
                    let r := scanFields (emptyMessage ty rcpt rawText) body in
                    if negb (truthy (from r)) || negb (truthy (requestId r))
                    then None
                    else
                      let r := parseDepth r in
                      if typeFieldsMissing ty r then None else Some r
              end
          end
      end
  end.

(** *** The cases of [tests/test-parser.js] *)

Definition nl : jsstring := [10%N].
Definition arrow : jsstring := [8594%N].

Definition validRequest : jsstring :=
  fence ++ nl ++ js "[REQUEST " ++ arrow ++ js " @Mantis]" ++ nl
  ++ js "From: Lotbot" ++ nl
  ++ js "RequestId: lotbot-abc123" ++ nl
  ++ js "Task: Check Mac Mini CLI version" ++ nl
  ++ js "Context: Weekly audit" ++ nl
  ++ js "Depth: 1/5" ++ nl
  ++ js "Priority: normal" ++ nl ++ fence.

Definition multilineRequest : jsstring :=
  fence ++ nl ++ js "[REQUEST " ++ arrow ++ js " @Mantis]" ++ nl
  ++ js "From: Lotbot" ++ nl
  ++ js "RequestId: lotbot-abc123" ++ nl
  ++ js "Task: Do these things:" ++ nl
  ++ js "1. Check version" ++ nl
  ++ js "2. Report status" ++ nl
  ++ js "Depth: 1/5" ++ nl ++ fence.

Definition missingRequestId : jsstring :=
  fence ++ nl ++ js "[REQUEST " ++ arrow ++ js " @Mantis]" ++ nl
  ++ js "From: Lotbot" ++ nl
  ++ js "Task: Do something" ++ nl
  ++ js "Depth: 1/5" ++ nl ++ fence.

Definition unknownFields : jsstring :=
  fence ++ nl ++ js "[REQUEST " ++ arrow ++ js " @Mantis]" ++ nl
  ++ js "From: Lotbot" ++ nl
  ++ js "RequestId: lotbot-abc123" ++ nl
  ++ js "Task: Do something" ++ nl
  ++ js "Depth: 1/5" ++ nl
  ++ js "CustomField: custom value" ++ nl
  ++ js "AnotherField: another value" ++ nl ++ fence.

End Parser.

(** * The builder ([lib/builder.js]) *)

Module Builder.

Definition nl : jsstring := [10%N].
Definition fence : jsstring := [96%N; 96%N; 96%N].

(** [{ current, max }] as the builder receives it. *)
Record Depth := { current : Z; max : Z }.

(** The field mapping handed to a constructor; an omitted field is [None]. *)
Record Fields := {
  to : option jsstring;
  from : option jsstring;
  requestId : option jsstring;
  task : option jsstring;
  context : option jsstring;
  depth : option Depth;
  callback : option jsstring;
  priority : option jsstring;
  status : option jsstring;
  result : option jsstring;
  question : option jsstring;
  message : option jsstring
}.

(** A constructor returns the wire text or throws an [Error] with a
    message. *)
Inductive Outcome :=
| Returns (text : jsstring)
| Throws (msg : jsstring).

(** The text a template literal puts for [${v}]. *)
Definition str (v : option jsstring) : jsstring :=
  match v with
  | Some s => s
  | None => js "undefined"
  end.

(** [validateRequired(fields, messageType)]: the message of the error
    thrown, if any. *)
Fixpoint validateRequired (fields : list (jsstring * option jsstring))
    (messageType : jsstring) : option jsstring :=
  match fields with
  | [] => None
  | (key, value) :: rest =>
      if truthy value then validateRequired rest messageType
      else Some (messageType ++ js " requires field: " ++ key)
  end.

(** [botname.toLowerCase().replace(/[^a-z0-9]/g, '')] followed by a dash
    and the six units drawn by [nanoid()], which is an input here. *)
Definition generateRequestId (nanoid : jsstring) (botname : jsstring) : jsstring :=
  let cleanName :=
    List.filter (fun c => in_range 97 122 c || in_range 48 57 c)
                (toLowerCase botname) in
  cleanName ++ js "-" ++ nanoid.

(** [depth || { current: 1, max: 5 }] *)
Definition depthOrDefault (d : option Depth) : Depth :=
  match d with
  | Some d => d
  | None => {| current := 1; max := 5 |}
  end.

Definition depthText (d : Depth) : jsstring :=
  show_Z (current d) ++ js "/" ++ show_Z (max d).

Definition depthLimitMessage (d : Depth) (messageType : jsstring) : jsstring :=
  js "Depth limit reached (" ++ depthText d ++ js "). Cannot send "
  ++ messageType ++ js ". Must send RESPONSE instead.".

(** [if (v) message += `Label: ${v}\n`] *)
Definition optionalLine (label : jsstring) (v : option jsstring) : jsstring :=
  if truthy v then label ++ str v ++ nl else [].

Definition headerLine (messageType rcpt : jsstring) : jsstring :=
  fence ++ nl ++ js "[" ++ messageType ++ js " " ++ [8594%N] ++ js " @"
  ++ rcpt ++ js "]" ++ nl.

Definition buildRequest (nanoid : jsstring) (f : Fields) : Outcome :=
  match validateRequired
          [(js "to", to f); (js "from", from f); (js "task", task f)]
          (js "REQUEST") with
  | Some e => Throws e
  | None =>
      let id := js_or (requestId f)
                      (Some (generateRequestId nanoid (str (from f)))) in
      let d := depthOrDefault (depth f) in
      if (current d =? max d)%Z
      then Throws (depthLimitMessage d (js "REQUEST"))
      else Returns
        (headerLine (js "REQUEST") (str (to f))
         ++ js "From: " ++ str (from f) ++ nl
         ++ js "RequestId: " ++ str id ++ nl
         ++ js "Task: " ++ str (task f) ++ nl
         ++ optionalLine (js "Context: ") (context f)
         ++ js "Depth: " ++ depthText d ++ nl
         ++ optionalLine (js "Callback: ") (callback f)
         ++ optionalLine (js "Priority: ") (priority f)
         ++ fence)
  end.

Definition buildResponse (f : Fields) : Outcome :=
  match validateRequired
          [(js "to", to f); (js "from", from f); (js "requestId", requestId f)]
          (js "RESPONSE") with
  | Some e => Throws e
  | None =>
      if negb (truthy (status f)) && negb (truthy (result f))
      then Throws (js "RESPONSE requires either status or result")
      else
        let d := depthOrDefault (depth f) in
        Returns
          (headerLine (js "RESPONSE") (str (to f))
           ++ js "From: " ++ str (from f) ++ nl
           ++ js "RequestId: " ++ str (requestId f) ++ nl
           ++ optionalLine (js "Status: ") (status f)
           ++ optionalLine (js "Result: ") (result f)
           ++ optionalLine (js "Context: ") (context f)
           ++ js "Depth: " ++ depthText d ++ nl
           ++ fence)
  end.

Definition buildClarify (f : Fields) : Outcome :=
  match validateRequired
          [(js "to", to f); (js "from", from f);
           (js "requestId", requestId f); (js "question", question f)]
          (js "CLARIFY") with
  | Some e => Throws e
  | None =>
      let d := depthOrDefault (depth f) in
      if (current d =? max d)%Z
      then Throws (depthLimitMessage d (js "CLARIFY"))
      else Returns
        (headerLine (js "CLARIFY") (str (to f))
         ++ js "From: " ++ str (from f) ++ nl
         ++ js "RequestId: " ++ str (requestId f) ++ nl
         ++ js "Question: " ++ str (question f) ++ nl
         ++ js "Depth: " ++ depthText d ++ nl
         ++ fence)
  end.

Definition buildHandoff (f : Fields) : Outcome :=
  match validateRequired
          [(js "to", to f); (js "from", from f);
           (js "requestId", requestId f); (js "task", task f)]
          (js "HANDOFF") with
  | Some e => Throws e
  | None =>
      let d := depthOrDefault (depth f) in
      if (current d =? max d)%Z
      then Throws (depthLimitMessage d (js "HANDOFF"))
      else Returns
        (headerLine (js "HANDOFF") (str (to f))
         ++ js "From: " ++ str (from f) ++ nl
         ++ js "RequestId: " ++ str (requestId f) ++ nl
         ++ js "Task: " ++ str (task f) ++ nl
         ++ optionalLine (js "Context: ") (context f)
         ++ js "Depth: " ++ depthText d ++ nl
         ++ optionalLine (js "Callback: ") (callback f)
         ++ optionalLine (js "Priority: ") (priority f)
         ++ fence)
  end.

Definition buildBroadcast (nanoid : jsstring) (f : Fields) : Outcome :=
  match validateRequired
          [(js "from", from f); (js "message", message f)]
          (js "BROADCAST") with
  | Some e => Throws e
  | None =>
      let id := js_or (requestId f)
                      (Some (generateRequestId nanoid (str (from f)))) in
      let d := depthOrDefault (depth f) in
      Returns
        (headerLine (js "BROADCAST") (js "all")
         ++ js "From: " ++ str (from f) ++ nl
         ++ js "RequestId: " ++ str id ++ nl
         ++ js "Message: " ++ str (message f) ++ nl
         ++ optionalLine (js "Context: ") (context f)
         ++ js "Depth: " ++ depthText d ++ nl
         ++ fence)
  end.


(** An empty field mapping, to be filled in by examples. *)
Definition noFields : Fields :=
  {| to := None; from := None; requestId := None; task := None;
     context := None; depth := None; callback := None; priority := None;
     status := None; result := None; question := None; message := None |}.

(** The request of [testBuildRequest] and [testDepthEnforcement]. *)
Definition requestFields (c m : Z) : Fields :=
  {| to := Some (js "Mantis"); from := Some (js "Lotbot"); requestId := None;
     task := Some (js "Check CLI version"); context := None;
     depth := Some {| current := c; max := m |}; callback := None;
     priority := Some (js "normal"); status := None; result := None;
     question := None; message := None |}.

(** A field mapping with every text field given, at depth [c]/[m]. *)
Definition allFields (c m : Z) : Fields :=
  {| to := Some (js "Mantis"); from := Some (js "Lotbot");
     requestId := Some (js "lotbot-abc123");
     task := Some (js "Check CLI version"); context := Some (js "Weekly audit");
     depth := Some {| current := c; max := m |};
     callback := Some (js "@Lotbot"); priority := Some (js "normal");
     status := Some (js "done"); result := Some (js "CLI is up to date");
     question := Some (js "Which version?");
     message := Some (js "Going offline") |}.

End Builder.

(** * The conversation state store ([lib/state.js]) *)

Module StateStore.

Definition s_open : jsstring := Eval cbv in js "open".
Definition s_clarifying : jsstring := Eval cbv in js "clarifying".
Definition s_done : jsstring := Eval cbv in js "done".
Definition s_partial : jsstring := Eval cbv in js "partial".
Definition s_failed : jsstring := Eval cbv in js "failed".
Definition s_timeout : jsstring := Eval cbv in js "timeout".

(** An entry of [history]: what [track] pushes, and what [timeout]
    pushes.  Times are milliseconds since the epoch; the ISO text the source
    stores converts back to the same number. *)
Inductive HistoryEntry :=
| Tracked (type : jsstring) (from : option jsstring) (to : jsstring)
          (status : option jsstring) (time : Z) (content : option jsstring)
| TIMEOUT (reason : jsstring) (time : Z).

(** A conversation record.  [depth] is [None] when the source stores
    [undefined]; [lastType] is [None] in a record written before that
    field existed. *)
Record Conversation := {
  type : jsstring;
  to : jsstring;
  from : option jsstring;
  task : option jsstring;
  status : jsstring;
  depth : option N;
  createdAt : Z;
  updatedAt : Z;
  lastType : option jsstring;
  history : list HistoryEntry
}.

(** [DEFAULT_TIMEOUTS], in milliseconds. *)
Definition DEFAULT_TIMEOUTS : list (jsstring * Z) :=
  [(Parser.CLARIFY, 10 * 60 * 1000);
   (Parser.REQUEST, 30 * 60 * 1000);
   (Parser.HANDOFF, 30 * 60 * 1000);
   (Parser.BROADCAST, 5 * 60 * 1000)]%Z.

(** [table[key]] on the table's own properties.  (What a plain object
    inherits from [Object.prototype] is left out: the keys looked up are
    the message types that [track] stored.) *)
Definition property (table : list (jsstring * Z)) (key : jsstring) : option Z :=
  snd <$> List.find (fun e => str_eqb key (fst e)) table.

(** [a || b] where [a] and [b] are numbers or [undefined]. *)
Definition num_or (a b : option Z) : option Z :=
  match a with
  | Some v => if (v =? 0)%Z then b else a
  | None => b
  end.

(** [a > b] where [b] is a number or [undefined]. *)
Definition num_gt (a : Z) (b : option Z) : bool :=
  match b with
  | Some v => (a >? v)%Z
  | None => false
  end.

(** [a || 'text'] where [a] is a string or [null]. *)
Definition or_text (a : option jsstring) (b : jsstring) : jsstring :=
  match a with
  | Some (c :: s) => c :: s
  | _ => b
  end.

(** The property key made of a string-or-null. *)
Definition keyOf (v : option jsstring) : jsstring :=
  match v with
  | Some s => s
  | None => js "null"
  end.

(** The world the store runs in: the state file, and how many times the
    clock has been read.  A missing file is the empty map. *)
Record World := {
  disk : gmap (list N) Conversation;
  reads : nat
}.

Definition M (A : Type) : Type := World -> A * World.

Definition ret {A} (a : A) : M A := fun w => (a, w).

Definition bind {A B} (c : M A) (k : A -> M B) : M B :=
  fun w => let (a, w') := c w in k a w'.

Notation "x <- c ;; k" := (bind c (fun x => k))
  (at level 60, c at next level, right associativity).
Notation "c ;;; k" := (bind c (fun _ => k))
  (at level 60, right associativity).

(** [for (const x of xs) { ... }] with an accumulator. *)
Fixpoint forEach {A B} (xs : list A) (body : B -> A -> M B) (b : B) : M B :=
  match xs with
  | [] => ret b
  | x :: xs' => b' <- body b x ;; forEach xs' body b'
  end.

Definition loadState : M (gmap (list N) Conversation) :=
  fun w => (disk w, w).

Definition saveState (state : gmap (list N) Conversation) : M unit :=
  fun w => (tt, {| disk := state; reads := reads w |}).

(** The three assignments of [timeout] on a record: the status, the time
    of the update, and the entry pushed on the history. *)
Definition markTimedOut (conv : Conversation) (reason : jsstring)
    (t1 t2 : Z) : Conversation :=
  {| type := type conv; to := to conv; from := from conv;
     task := task conv;
     status := s_timeout;
     depth := depth conv;
     createdAt := createdAt conv;
     updatedAt := t1;
     lastType := lastType conv;
     history := history conv ++ [TIMEOUT reason t2] |}.

Section Clock.

(** The time shown by the clock at its successive readings. *)
Variable clock : nat -> Z.

(** [Date.now()], [new Date()] *)
Definition dateNow : M Z :=
  fun w => (clock (reads w), {| disk := disk w; reads := S (reads w) |}).

(** [track(parsedMessage)].  The lock runs the calls one after the other,
    which is the only order the model has. *)
Definition track (parsedMessage : Parser.Message) : M (option Conversation) :=
  state <- loadState ;;
  let requestId := keyOf (Parser.requestId parsedMessage) in
  let type := Parser.type parsedMessage in
  let from := Parser.from parsedMessage in
  let to := Parser.to parsedMessage in
  now <- dateNow ;;
  let state1 :=
    match state !! requestId with
    | None =>
        <[requestId :=
          {| type := type;
             to := to;
             from := from;
             task := js_or (js_or (Parser.task parsedMessage)
                                  (Parser.question parsedMessage))
                           (Parser.message parsedMessage);
             status :=
               if str_eqb type Parser.RESPONSE
               then or_text (Parser.status parsedMessage) s_done
               else s_open;
             depth :=
               match Parser.depth parsedMessage with
               | Parser.DepthPair current _ => Some current
               | Parser.DepthText (_ :: _) => None
               | _ => Some 1%N
               end;
             createdAt := now;
             updatedAt := now;
             lastType := Some type;
             history := [] |}]> state
    | Some conv =>
        <[requestId :=
          {| type := StateStore.type conv;
             to := StateStore.to conv;
             from := StateStore.from conv;
             task := task conv;
             status :=
               if str_eqb type Parser.RESPONSE
               then or_text (Parser.status parsedMessage) s_done
               else if str_eqb type Parser.CLARIFY then s_clarifying
               else status conv;
             depth := depth conv;
             createdAt := createdAt conv;
             updatedAt := now;
             lastType := Some type;
             history := history conv |}]> state
    end in
  let entry :=
    Tracked type from to (Parser.status parsedMessage) now
      (js_or (js_or (js_or (Parser.task parsedMessage)
                           (Parser.result parsedMessage))
                    (Parser.question parsedMessage))
             (Parser.message parsedMessage)) in
  let state2 :=
    alter (fun conv =>
             {| type := StateStore.type conv; to := StateStore.to conv;
                from := StateStore.from conv; task := task conv;
                status := status conv; depth := depth conv;
                createdAt := createdAt conv; updatedAt := updatedAt conv;
                lastType := lastType conv;
                history := history conv ++ [entry] |})
          requestId state1 in
  saveState state2 ;;;
  ret (state2 !! requestId).

(** [get(requestId)] *)
Definition get (requestId : jsstring) : M (option Conversation) :=
  state <- loadState ;;
  ret (state !! requestId).

(** [timeout(requestId, reason)] *)
Definition timeout (requestId reason : jsstring) : M (option Conversation) :=
  state <- loadState ;;
  match state !! requestId with
  | Some conv =>
      t1 <- dateNow ;;
      t2 <- dateNow ;;
      let state' := <[requestId := markTimedOut conv reason t1 t2]> state in
      saveState state' ;;;
      ret (state' !! requestId)
  | None => ret None
  end.

(** [['done', 'failed', 'timeout'].includes(conv.status)] *)
Definition cleanupStatuses : list jsstring := [s_done; s_failed; s_timeout].

(** The body of the loop of [cleanup], on [state] and [removed]. *)
Definition cleanupEntry (now olderThanMs : Z)
    (vars : gmap (list N) Conversation * nat)
    (entry : jsstring * Conversation) : gmap (list N) Conversation * nat :=
  let '(state, removed) := vars in
  let '(requestId, conv) := entry in
  let age := (now - updatedAt conv)%Z in
  if (age >? olderThanMs)%Z && includes cleanupStatuses (status conv)
  then (delete requestId state, S removed)
  else (state, removed).

(** [cleanup(olderThanMs = 24 * 60 * 60 * 1000)]; [None] is the omitted
    argument.  The loop runs over the entries the state had when it was
    loaded. *)
Definition cleanup (olderThanMs : option Z) : M nat :=
  let olderThanMs := default (24 * 60 * 60 * 1000)%Z olderThanMs in
  state <- loadState ;;
  now <- dateNow ;;
  let '(state', removed) :=
    fold_left (cleanupEntry now olderThanMs) (map_to_list state) (state, 0) in
  (if (0 <? removed) then saveState state' else ret tt) ;;;
  ret removed.

(** [conv.lastType || conv.type] *)
Definition messageTypeOf (conv : Conversation) : jsstring :=
  match lastType conv with
  | Some (c :: s) => c :: s
  | _ => type conv
  end.

(** [DEFAULT_TIMEOUTS[messageType] || DEFAULT_TIMEOUTS.REQUEST] *)
Definition timeoutMsOf (conv : Conversation) : option Z :=
  num_or (property DEFAULT_TIMEOUTS (messageTypeOf conv))
         (property DEFAULT_TIMEOUTS Parser.REQUEST).

(** The body of the loop of [checkTimeouts], on [timedOut].
    [Math.floor(age / 1000 / 60)] is the whole number of minutes in [age],
    which is positive where it is used. *)
Definition checkEntry (now : Z) (timedOut : list jsstring)
    (entry : jsstring * Conversation) : M (list jsstring) :=
  let '(requestId, conv) := entry in
  if negb (str_eqb (status conv) s_open)
     && negb (str_eqb (status conv) s_clarifying)
  then ret timedOut
  else
    let age := (now - updatedAt conv)%Z in
    if num_gt age (timeoutMsOf conv)
    then
      timeout requestId
        (js "No response after " ++ show_Z (age / 1000 / 60)
         ++ js " minutes") ;;;
      ret (timedOut ++ [requestId])
    else ret timedOut.

(** [checkTimeouts()].  The loop runs over the entries of the state loaded
    at the start, while each [timeout] loads and saves the state file
    again. *)
Definition checkTimeouts : M (list jsstring) :=
  state <- loadState ;;
  now <- dateNow ;;
  forEach (map_to_list state) (checkEntry now) [].

End Clock.

End StateStore.

(** ** Queries on the store *)

Module StateQueries.

Import StateStore.

(** [if (v) conversations = conversations.filter(c => test)] *)
Definition filterIf {A} (v : option jsstring) (test : jsstring -> A -> bool)
    (conversations : Datatypes.list A) : Datatypes.list A :=
  match v with
  | Some (c :: s) => List.filter (test (c :: s)) conversations
  | _ => conversations
  end.

(** [c.from === from], where [c.from] is a string or [null]. *)
Definition same_text (a : option jsstring) (b : jsstring) : bool :=
  match a with
  | Some v => str_eqb v b
  | None => false
  end.

(** [list({ status, from, to } = {})]; an omitted filter is [None].  An
    entry of the result is the identifier with the record: the object
    [{ requestId: id, ...conv }] of the source. *)
Definition list (status from to : option jsstring)
    : M (Datatypes.list (jsstring * Conversation)) :=
  state <- loadState ;;
  let conversations := map_to_list state in
  let conversations :=
    filterIf status
      (fun status c => str_eqb (StateStore.status c.2) status)
      conversations in
  let conversations :=
    filterIf from
      (fun from c => same_text (StateStore.from c.2) from)
      conversations in
  let conversations :=
    filterIf to
      (fun to c => str_eqb (StateStore.to c.2) to)
      conversations in
  ret conversations.

End StateQueries.

(** * Vocabulary of the properties *)

Section BuilderVocabulary.

Import Builder.

(** The required fields of each constructor, all present. *)
Definition requestReady (f : Fields) : Prop :=
  truthy (to f) = true /\ truthy (from f) = true /\ truthy (task f) = true.

Definition handoffReady (f : Fields) : Prop :=
  truthy (to f) = true /\ truthy (from f) = true
  /\ truthy (requestId f) = true /\ truthy (task f) = true.

Definition clarifyReady (f : Fields) : Prop :=
  truthy (to f) = true /\ truthy (from f) = true
  /\ truthy (requestId f) = true /\ truthy (question f) = true.

Definition responseReady (f : Fields) : Prop :=
  truthy (to f) = true /\ truthy (from f) = true
  /\ truthy (requestId f) = true
  /\ (truthy (status f) = true \/ truthy (result f) = true).

Definition broadcastReady (f : Fields) : Prop :=
  truthy (from f) = true /\ truthy (message f) = true.

(** The depth the constructor works with: the one given, or 1/5. *)
Definition effectiveDepth (f : Fields) : Depth := depthOrDefault (depth f).

Definition returns (o : Outcome) : Prop := exists text, o = Returns text.

(** The text of the error thrown at the depth limit, as the source writes
    it. *)
Definition depthLimitError (d : Depth) (refused : string) : Outcome :=
  Throws (js "Depth limit reached (" ++ show_Z (current d) ++ js "/"
          ++ show_Z (max d) ++ js "). Cannot send " ++ js refused
          ++ js ". Must send RESPONSE instead.").

(** [Depth: current/max] and its line end, as the constructors write it. *)
Definition depthLine (d : Depth) : jsstring :=
  js "Depth: " ++ show_Z (current d) ++ js "/" ++ show_Z (max d) ++ nl.

Definition emits (o : Outcome) (line : jsstring) : Prop :=
  exists pre post, o = Returns (pre ++ line ++ post).

End BuilderVocabulary.

Section ParserVocabulary.

Import Parser.

(** The keys the loop hands to [saveField]: lower-cased [[A-Za-z]+]. *)
Definition lowerKey (k : jsstring) : Prop :=
  k <> [] /\ forallb (in_range 97 122) k = true.

(** The status of a scanned message is [null] or one of [VALID_STATUSES]. *)
Definition statusValid (v : option jsstring) : Prop :=
  v = None \/ exists s, v = Some s /\ In s VALID_STATUSES.


(** The whole message parsed from [validRequest]. *)
Definition validRequestMessage : Message :=
  {| type := REQUEST;
     to := js "Mantis";
     from := Some (js "Lotbot");
     requestId := Some (js "lotbot-abc123");
     task := Some (js "Check Mac Mini CLI version");
     result := None;
     context := Some (js "Weekly audit");
     depth := DepthPair 1 5;
     callback := None;
     priority := Some (js "normal");
     status := None;
     question := None;
     message := None;
     meta := ∅;
     raw := validRequest |}.





(** The lines that follow the header in the fenced block of [rawText]. *)
Definition fieldLines (rawText : jsstring) : list jsstring :=
  match codeBlockMatch rawText with
  | Some block => tail (split_lines (trim block))
  | None => []
  end.

(** The key of a [Key: value] line, folded to lower case as the scanning
    loop keeps it. *)
Definition lineKey (line : jsstring) : option jsstring :=
  match kvMatch line with
  | Some (key, _) => Some (toLowerCase key)
  | None => None
  end.

(** The lines that continue a value: those before the next [Key: value]
    line. *)
Fixpoint continuation (rest : list jsstring) : list jsstring :=
  match rest with
  | [] => []
  | line :: rest' =>
      match kvMatch line with
      | Some _ => []
      | None => line :: continuation rest'
      end
  end.

(** A request with a field the parser does not know. *)
Definition xfeatureRequest : jsstring :=
  fence ++ nl ++ js "[REQUEST " ++ arrow ++ js " @Mantis]" ++ nl
  ++ js "From: Lotbot" ++ nl
  ++ js "RequestId: lotbot-abc123" ++ nl
  ++ js "Task: Do something" ++ nl
  ++ js "XFeature: v" ++ nl
  ++ js "Depth: 1/5" ++ nl ++ fence.

Definition xfeatureMessage : Message :=
  {| type := REQUEST;
     to := js "Mantis";
     from := Some (js "Lotbot");
     requestId := Some (js "lotbot-abc123");
     task := Some (js "Do something");
     result := None;
     context := None;
     depth := DepthPair 1 5;
     callback := None;
     priority := None;
     status := None;
     question := None;
     message := None;
     meta := {[ js "xfeature" := js "v" ]};
     raw := xfeatureRequest |}.

End ParserVocabulary.

Section StoreVocabulary.

Import StateStore.

(** The world a call leaves, and what it returns. *)
Definition after {A} (c : M A) (w : World) : World := (c w).2.
Definition answer {A} (c : M A) (w : World) : A := (c w).1.

(** A message that came out of [parse]. *)
Definition parsed (m : Parser.Message) : Prop :=
  exists raw, Parser.parse raw = Some m.

(** [track] called on each message of a list, in order. *)
Fixpoint trackAll (clock : nat -> Z) (ms : list Parser.Message) : M unit :=
  match ms with
  | [] => ret tt
  | m :: ms' => track clock m ;;; trackAll clock ms'
  end.


(** No state file yet, and a clock that advances one second per reading. *)
Definition emptyWorld : World := {| disk := ∅; reads := 0 |}.
Definition tickingClock (n : nat) : Z := 1000 * Z.of_nat n.

(** The reply of [tests/test-parser.js] to [validRequest], one hop later. *)
Definition validClarify : jsstring :=
  Parser.fence ++ Parser.nl
  ++ js "[CLARIFY " ++ Parser.arrow ++ js " @Lotbot]" ++ Parser.nl
  ++ js "From: Mantis" ++ Parser.nl
  ++ js "RequestId: lotbot-abc123" ++ Parser.nl
  ++ js "Question: Which version should I check against?" ++ Parser.nl
  ++ js "Depth: 2/5" ++ Parser.nl ++ Parser.fence.

Definition validClarifyMessage : Parser.Message :=
  {| Parser.type := Parser.CLARIFY;
     Parser.to := js "Lotbot";
     Parser.from := Some (js "Mantis");
     Parser.requestId := Some (js "lotbot-abc123");
     Parser.task := None;
     Parser.result := None;
     Parser.context := None;
     Parser.depth := Parser.DepthPair 2 5;
     Parser.callback := None;
     Parser.priority := None;
     Parser.status := None;
     Parser.question := Some (js "Which version should I check against?");
     Parser.message := None;
     Parser.meta := ∅;
     Parser.raw := validClarify |}.

(** The terminal statuses of the glossary. *)
Definition terminalStatuses : list jsstring :=
  [s_done; s_partial; s_failed; s_timeout].

(** A record whose status is one of [statuses] and whose age at [now]
    exceeds [limit]. *)
Definition removable (statuses : list jsstring) (now limit : Z)
    (c : Conversation) : bool :=
  includes statuses (status c) && (limit <? now - updatedAt c)%Z.

(** A partial answer to [validRequest]. *)
Definition partialResponse : jsstring :=
  Parser.fence ++ Parser.nl
  ++ js "[RESPONSE " ++ Parser.arrow ++ js " @Lotbot]" ++ Parser.nl
  ++ js "From: Mantis" ++ Parser.nl
  ++ js "RequestId: lotbot-abc123" ++ Parser.nl
  ++ js "Status: partial" ++ Parser.nl
  ++ js "Result: Max depth reached" ++ Parser.nl
  ++ js "Depth: 5/5" ++ Parser.nl ++ Parser.fence.

Definition partialResponseMessage : Parser.Message :=
  {| Parser.type := Parser.RESPONSE;
     Parser.to := js "Lotbot";
     Parser.from := Some (js "Mantis");
     Parser.requestId := Some (js "lotbot-abc123");
     Parser.task := None;
     Parser.result := Some (js "Max depth reached");
     Parser.context := None;
     Parser.depth := Parser.DepthPair 5 5;
     Parser.callback := None;
     Parser.priority := None;
     Parser.status := Some (js "partial");
     Parser.question := None;
     Parser.message := None;
     Parser.meta := ∅;
     Parser.raw := partialResponse |}.

(** The store after [validRequest] and that answer were tracked: one
    record, of status [partial], last updated at time 1000. *)
Definition partialWorld : World :=
  after (track tickingClock validRequestMessage ;;;
         track tickingClock partialResponseMessage)
        emptyWorld.

(** The timeout table of the specification, in minutes; any other type
    has the window of REQUEST. *)
Definition windowMinutes (messageType : jsstring) : Z :=
  if str_eqb messageType Parser.CLARIFY then 10
  else if str_eqb messageType Parser.REQUEST then 30
  else if str_eqb messageType Parser.HANDOFF then 30
  else if str_eqb messageType Parser.BROADCAST then 5
  else 30.

(** A record that is [open] or [clarifying] and whose age at [now] exceeds
    the window of its latest message type. *)
Definition stalled (now : Z) (c : Conversation) : bool :=
  (str_eqb (status c) s_open || str_eqb (status c) s_clarifying)
  && (windowMinutes (messageTypeOf c) * 60 * 1000 <? now - updatedAt c)%Z.

(** A clock that advances eleven minutes per reading, and the store after
    [validRequest] and then [validClarify] were tracked on it: one record,
    [clarifying], last updated at minute 11. *)
Definition slowClock (n : nat) : Z := 11 * 60 * 1000 * Z.of_nat n.

Definition clarifyingWorld : World :=
  after (track slowClock validRequestMessage ;;;
         track slowClock validClarifyMessage)
        emptyWorld.

(** The same on a clock that advances nine minutes per reading. *)
Definition quickClock (n : nat) : Z := 9 * 60 * 1000 * Z.of_nat n.

Definition recentWorld : World :=
  after (track quickClock validRequestMessage ;;;
         track quickClock validClarifyMessage)
        emptyWorld.

(** The store after [validRequest] was tracked and then timed out. *)
Definition timedOutWorld : World :=
  after (track tickingClock validRequestMessage ;;;
         timeout tickingClock (js "lotbot-abc123") (js "stalled"))
        emptyWorld.

End StoreVocabulary.

Section WireVocabulary.








(** The header line and a field line of the wire format. *)
Definition headerText (ty rcpt : jsstring) : jsstring :=
  91%N :: ty ++ 32%N :: 8594%N :: 32%N :: 64%N :: rcpt ++ [93%N].

Definition fieldText (kv : jsstring * jsstring) : jsstring :=
  kv.1 ++ 58%N :: 32%N :: kv.2.

(** The fenced block every constructor writes: a header and field lines. *)
Definition wireText (ty rcpt : jsstring)
    (fields : list (jsstring * jsstring)) : jsstring :=
  Parser.fence
  ++ (10%N :: join_lines (headerText ty rcpt :: List.map fieldText fields)
      ++ [10%N])
  ++ Parser.fence.

(** The field written when [v] is given. *)
Definition optionalField (label : jsstring) (v : option jsstring)
    : list (jsstring * jsstring) :=
  if truthy v then [(label, Builder.str v)] else [].









End WireVocabulary.

(** * Vocabulary of the further properties *)

Section BuilderMore.

Import Builder.



(** The error a constructor throws for a missing field. *)
Definition missingField (messageType key : string) : Outcome :=
  Throws (js messageType ++ js " requires field: " ++ js key).


End BuilderMore.

Section ParserMore.

Import Parser.

(** The priority of a scanned message is [null] or one of
    [VALID_PRIORITIES]. *)
Definition priorityValid (v : option jsstring) : Prop :=
  v = None \/ exists s, v = Some s /\ In s VALID_PRIORITIES.

(** The known fields that [parse] returns as the text it saved (the others,
    [depth], [status] and [priority], are looked at again after the save). *)
Definition plainFields : list jsstring :=
  [k_from; k_requestid; k_task; k_result; k_context; k_callback;
   k_question; k_message].

(** The property of a message that a plain field name stands for. *)
Definition plainField (key : jsstring) (r : Message) : option jsstring :=
  if str_eqb key k_from then from r
  else if str_eqb key k_requestid then requestId r
  else if str_eqb key k_task then task r
  else if str_eqb key k_result then result r
  else if str_eqb key k_context then context r
  else if str_eqb key k_callback then callback r
  else if str_eqb key k_question then question r
  else if str_eqb key k_message then message r
  else None.

(** A message with its [raw] text replaced. *)
Definition withRaw (rawText : jsstring) (r : Message) : Message :=
  {| type := type r; to := to r; from := from r; requestId := requestId r;
     task := task r; result := result r; context := context r;
     depth := depth r; callback := callback r; priority := priority r;
     status := status r; question := question r; message := message r;
     meta := meta r; raw := rawText |}.

(** The header lines the pattern of [parse] accepts: a bracket, the type,
    white space, the arrow, white space, an at sign, the recipient, a
    bracket. *)
Definition headerShape (line ty rcpt : jsstring) : Prop :=
  exists ws1 ws2,
    line = 91%N :: ty ++ ws1 ++ 8594%N :: ws2 ++ 64%N :: rcpt ++ [93%N]
    /\ forallb isWhiteSpace ws1 = true /\ forallb isWhiteSpace ws2 = true.

(** A request whose task runs over three lines. *)
Definition multilineMessageTask : jsstring :=
  js "Do these things:" ++ nl ++ js "1. Check version" ++ nl
  ++ js "2. Report status".

(** The message parsed from [multilineRequest]. *)
Definition multilineMessage : Message :=
  {| type := REQUEST;
     to := js "Mantis";
     from := Some (js "Lotbot");
     requestId := Some (js "lotbot-abc123");
     task := Some multilineMessageTask;
     result := None;
     context := None;
     depth := DepthPair 1 5;
     callback := None;
     priority := None;
     status := None;
     question := None;
     message := None;
     meta := ∅;
     raw := multilineRequest |}.

(** A request in the middle of a chat message: the text before the fence,
    the text between the fences, the text after. *)
Definition chatBefore : jsstring := js "Hello Mantis, please handle: ".
Definition chatBlock : jsstring :=
  nl ++ js "[REQUEST " ++ arrow ++ js " @Mantis]" ++ nl
  ++ js "From: Lotbot" ++ nl
  ++ js "RequestId: lotbot-abc123" ++ nl
  ++ js "Task: Check Mac Mini CLI version" ++ nl.
Definition chatAfter : jsstring := js " thanks!".

End ParserMore.

Section RoundTripMore.

Import Parser.








End RoundTripMore.

Section Forgery.

Import Builder.




End Forgery.

Section StoreMore.

Import StateStore.

(** A call of the interface of the store. *)
Inductive Call :=
| CallTrack (m : Parser.Message)
| CallTimeout (requestId reason : jsstring)
| CallCheckTimeouts
| CallCleanup (olderThanMs : option Z)
| CallGet (requestId : jsstring)
| CallList (status from to : option jsstring).

(** The call run for its effect on the store. *)
Definition call (clock : nat -> Z) (c : Call) : M unit :=
  match c with
  | CallTrack m => track clock m ;;; ret tt
  | CallTimeout requestId reason => timeout clock requestId reason ;;; ret tt
  | CallCheckTimeouts => checkTimeouts clock ;;; ret tt
  | CallCleanup olderThanMs => cleanup clock olderThanMs ;;; ret tt
  | CallGet requestId => get requestId ;;; ret tt
  | CallList status from to => StateQueries.list status from to ;;; ret tt
  end.

(** Calls one after the other. *)
Fixpoint callAll (clock : nat -> Z) (cs : list Call) : M unit :=
  match cs with
  | [] => ret tt
  | c :: cs' => call clock c ;;; callAll clock cs'
  end.


(** The calls that delete nothing: all but [cleanup]. *)
Definition keepsRecords (c : Call) : bool :=
  match c with
  | CallCleanup _ => false
  | _ => true
  end.

(** The calls of housekeeping and the queries: no message is tracked and
    no conversation is timed out by hand. *)
Definition housekeeping (c : Call) : bool :=
  match c with
  | CallTrack _ | CallTimeout _ _ => false
  | _ => true
  end.



(** [c'] is [c] some calls later: the same conversation, with a longer
    history. *)
Definition extends (c c' : Conversation) : Prop :=
  type c' = type c /\ to c' = to c /\ from c' = from c /\ task c' = task c
  /\ depth c' = depth c /\ createdAt c' = createdAt c
  /\ exists more, history c' = history c ++ more.

(** The entry [track] pushes on the history. *)
Definition trackedEntry (now : Z) (m : Parser.Message) : HistoryEntry :=
  Tracked (Parser.type m) (Parser.from m) (Parser.to m) (Parser.status m) now
    (js_or (js_or (js_or (Parser.task m) (Parser.result m))
                  (Parser.question m))
           (Parser.message m)).

(** The whole minutes since the last update of [c], and the reason
    [checkTimeouts] gives when it times [c] out at [now]. *)
Definition minutesSince (now : Z) (c : Conversation) : Z :=
  ((now - updatedAt c) / 1000 / 60)%Z.

Definition sweepReason (now : Z) (c : Conversation) : jsstring :=
  js "No response after " ++ show_Z (minutesSince now c) ++ js " minutes".


End StoreMore.

(** * Tactics *)

(** Closed goals settled by evaluation. *)
Ltac by_compute := vm_compute; reflexivity.

(** Splits the conjunctions of the goal, and nothing else. *)
Ltac split_ands := repeat match goal with |- _ /\ _ => split end.

(** Case analysis on every test of a conditional in the goal. *)
Ltac split_ifs :=
  repeat match goal with
         | |- context [if ?b then _ else _] => destruct b eqn:?
         end.

(** Evaluates the tests of [saveField] that are closed. *)
Ltac eval_tests :=
  repeat match goal with
         | |- context [includes Parser.knownFields ?k] =>
             let b := eval vm_compute in (includes Parser.knownFields k) in
             change (includes Parser.knownFields k) with b
         | |- context [str_eqb ?a ?b] =>
             let v := eval vm_compute in (str_eqb a b) in
             change (str_eqb a b) with v
         end.

(** Writes the literals of the goal as lists of units. *)
Ltac js_literals :=
  repeat match goal with
         | |- context [js ?s] =>
             let v := eval vm_compute in (js s) in change (js s) with v
         end.

(** Brings concatenations to the form [c :: ... :: s ++ ...]. *)
Ltac flatten := repeat first [rewrite <- app_assoc | progress cbn [app]].
(** * The cases of the test suites *)

Example testValidRequest :
  (fun m => (Parser.type m, Parser.to m, Parser.from m, Parser.requestId m,
             Parser.task m, Parser.depth m, Parser.priority m))
    <$> Parser.parse Parser.validRequest
  = Some (Parser.REQUEST, js "Mantis", Some (js "Lotbot"),
          Some (js "lotbot-abc123"), Some (js "Check Mac Mini CLI version"),
          Parser.DepthPair 1 5, Some (js "normal")).
Proof. by_compute. Qed.

Example parse_validRequest :
  Parser.parse Parser.validRequest = Some validRequestMessage.
Proof. by_compute. Qed.


Example parse_partialResponse :
  Parser.parse partialResponse = Some partialResponseMessage.
Proof. by_compute. Qed.

Example parse_xfeatureRequest :
  Parser.parse xfeatureRequest = Some xfeatureMessage.
Proof. by_compute. Qed.

Example testMultilineValue :
  Parser.task <$> Parser.parse Parser.multilineRequest
  = Some (Some (js "Do these things:" ++ Parser.nl ++ js "1. Check version"
                ++ Parser.nl ++ js "2. Report status")).
Proof. by_compute. Qed.

Example testMissingRequiredField :
  Parser.parse Parser.missingRequestId = None.
Proof. by_compute. Qed.

Example testUnknownFields :
  (fun m => (Parser.meta m !! js "customfield",
             Parser.meta m !! js "anotherfield"))
    <$> Parser.parse Parser.unknownFields
  = Some (Some (js "custom value"), Some (js "another value")).
Proof. by_compute. Qed.

Example testBuildRequest :
  Builder.buildRequest (js "k3x9q0") (Builder.requestFields 1 5)
  = Builder.Returns
      (Builder.fence ++ Builder.nl
       ++ js "[REQUEST " ++ [8594%N] ++ js " @Mantis]" ++ Builder.nl
       ++ js "From: Lotbot" ++ Builder.nl
       ++ js "RequestId: lotbot-k3x9q0" ++ Builder.nl
       ++ js "Task: Check CLI version" ++ Builder.nl
       ++ js "Depth: 1/5" ++ Builder.nl
       ++ js "Priority: normal" ++ Builder.nl ++ Builder.fence).
Proof. by_compute. Qed.

Example testDepthEnforcement :
  Builder.buildRequest (js "k3x9q0") (Builder.requestFields 5 5)
  = Builder.Throws
      (js "Depth limit reached (5/5). Cannot send REQUEST. Must send RESPONSE instead.").
Proof. by_compute. Qed.

Example testMissingRequiredFields :
  Builder.buildRequest (js "k3x9q0") Builder.noFields
  = Builder.Throws (js "REQUEST requires field: to").
Proof. by_compute. Qed.

Example testRoundTripRequest :
  match Builder.buildRequest (js "k3x9q0") (Builder.requestFields 1 5) with
  | Builder.Returns text =>
      (fun m => (Parser.type m, Parser.to m, Parser.from m, Parser.task m))
        <$> Parser.parse text
  | Builder.Throws _ => None
  end
  = Some (Parser.REQUEST, js "Mantis", Some (js "Lotbot"),
          Some (js "Check CLI version")).
Proof. by_compute. Qed.

Example show_Z_samples :
  (show_Z 0, show_Z 15, show_Z (-3)) = (js "0", js "15", js "-3").
Proof. by_compute. Qed.

Example parseInt_sample : parseInt (js "0042") = 42%N.
Proof. by_compute. Qed.

(** *** The patterns on their edge cases *)

(** The fence is found at the leftmost position where the whole pattern
    matches. *)
Example codeBlock_leftmost :
  Parser.codeBlockMatch (js "````abc```") = Some (js "abc")
  /\ Parser.codeBlockMatch (js "```abc``def```") = None
  /\ Parser.codeBlockMatch (js "``````") = None.
Proof. split_ands; by_compute. Qed.

Example header_edges :
  Parser.headerMatch (js "[REQUEST" ++ Parser.arrow ++ js "@Bot]")
    = Some (js "REQUEST", js "Bot")
  /\ Parser.headerMatch (js "[REQUEST " ++ Parser.arrow ++ js " @a]b]")
    = Some (js "REQUEST", js "a]b")
  /\ Parser.headerMatch (js "[REQUEST " ++ Parser.arrow ++ js " @Bot] ")
    = None
  /\ Parser.headerMatch (js "[REQUEST -> @Bot]") = None.
Proof. split_ands; by_compute. Qed.

(** A carriage return after the colon is white space; inside the value it
    stops the dots. *)
Example field_line_edges :
  Parser.kvMatch (js "Key:  a b ") = Some (js "Key", js "a b ")
  /\ Parser.kvMatch (js "Key:" ++ [13%N]) = Some (js "Key", [])
  /\ Parser.kvMatch (js "Key: a" ++ [13%N] ++ js "b") = None
  /\ Parser.kvMatch (js "my-key: v") = None
  /\ Parser.kvMatch (js "1. Check version") = None.
Proof. split_ands; by_compute. Qed.

Example depth_edges :
  Parser.depthMatch (js "10/5") = Some (js "10", js "5")
  /\ Parser.depthMatch (js "1/") = None
  /\ Parser.depthMatch (js "1/5 ") = None
  /\ Parser.depthMatch (js "-1/5") = None.
Proof. split_ands; by_compute. Qed.

Example trim_sample :
  trim ([10%N; 32%N] ++ js "a b" ++ [9%N; 160%N; 65279%N]) = js "a b".
Proof. by_compute. Qed.

Example generateRequestId_sample :
  Builder.generateRequestId (js "k3x9q0") (js "Lot-Bot 9") = js "lotbot9-k3x9q0".
Proof. by_compute. Qed.
(** * Properties of the builder *)

Section BuilderDepth.

Import Builder.

Lemma buildRequest_ready nanoid f :
  requestReady f ->
  buildRequest nanoid f =
    let d := effectiveDepth f in
    if (current d =? max d)%Z
    then Throws (depthLimitMessage d (js "REQUEST"))
    else Returns
        (headerLine (js "REQUEST") (str (to f))
         ++ js "From: " ++ str (from f) ++ nl
         ++ js "RequestId: "
         ++ str (js_or (requestId f)
                       (Some (generateRequestId nanoid (str (from f))))) ++ nl
         ++ js "Task: " ++ str (task f) ++ nl
         ++ optionalLine (js "Context: ") (context f)
         ++ js "Depth: " ++ depthText d ++ nl
         ++ optionalLine (js "Callback: ") (callback f)
         ++ optionalLine (js "Priority: ") (priority f)
         ++ fence).
Proof.
  intros (Hto & Hfrom & Htask). unfold buildRequest, validateRequired.
  rewrite Hto, Hfrom, Htask. reflexivity.
Qed.

Lemma buildHandoff_ready f :
  handoffReady f ->
  buildHandoff f =
    let d := effectiveDepth f in
    if (current d =? max d)%Z
    then Throws (depthLimitMessage d (js "HANDOFF"))
    else Returns
        (headerLine (js "HANDOFF") (str (to f))
         ++ js "From: " ++ str (from f) ++ nl
         ++ js "RequestId: " ++ str (requestId f) ++ nl
         ++ js "Task: " ++ str (task f) ++ nl
         ++ optionalLine (js "Context: ") (context f)
         ++ js "Depth: " ++ depthText d ++ nl
         ++ optionalLine (js "Callback: ") (callback f)
         ++ optionalLine (js "Priority: ") (priority f)
         ++ fence).
Proof.
  intros (Hto & Hfrom & Hid & Htask). unfold buildHandoff, validateRequired.
  rewrite Hto, Hfrom, Hid, Htask. reflexivity.
Qed.

Lemma buildClarify_ready f :
  clarifyReady f ->
  buildClarify f =
    let d := effectiveDepth f in
    if (current d =? max d)%Z
    then Throws (depthLimitMessage d (js "CLARIFY"))
    else Returns
        (headerLine (js "CLARIFY") (str (to f))
         ++ js "From: " ++ str (from f) ++ nl
         ++ js "RequestId: " ++ str (requestId f) ++ nl
         ++ js "Question: " ++ str (question f) ++ nl
         ++ js "Depth: " ++ depthText d ++ nl
         ++ fence).
Proof.
  intros (Hto & Hfrom & Hid & Hq). unfold buildClarify, validateRequired.
  rewrite Hto, Hfrom, Hid, Hq. reflexivity.
Qed.

Lemma buildResponse_ready f :
  responseReady f ->
  buildResponse f =
    Returns
      (headerLine (js "RESPONSE") (str (to f))
       ++ js "From: " ++ str (from f) ++ nl
       ++ js "RequestId: " ++ str (requestId f) ++ nl
       ++ optionalLine (js "Status: ") (status f)
       ++ optionalLine (js "Result: ") (result f)
       ++ optionalLine (js "Context: ") (context f)
       ++ js "Depth: " ++ depthText (effectiveDepth f) ++ nl
       ++ fence).
Proof.
  intros (Hto & Hfrom & Hid & Hsr). unfold buildResponse, validateRequired.
  rewrite Hto, Hfrom, Hid.
  destruct Hsr as [-> | ->]; [| rewrite andb_false_r]; reflexivity.
Qed.

Lemma buildBroadcast_ready nanoid f :
  broadcastReady f ->
  buildBroadcast nanoid f =
    Returns
      (headerLine (js "BROADCAST") (js "all")
       ++ js "From: " ++ str (from f) ++ nl
       ++ js "RequestId: "
       ++ str (js_or (requestId f)
                     (Some (generateRequestId nanoid (str (from f))))) ++ nl
       ++ js "Message: " ++ str (message f) ++ nl
       ++ optionalLine (js "Context: ") (context f)
       ++ js "Depth: " ++ depthText (effectiveDepth f) ++ nl
       ++ fence).
Proof.
  intros (Hfrom & Hmsg). unfold buildBroadcast, validateRequired.
  rewrite Hfrom, Hmsg. reflexivity.
Qed.

Lemma depthLimitError_message d (refused : string) :
  depthLimitError d refused = Throws (depthLimitMessage d (js refused)).
Proof.
  unfold depthLimitError, depthLimitMessage, depthText.
  f_equal. rewrite <- !app_assoc. reflexivity.
Qed.

(** C2. With the other required fields present, [buildRequest],
    [buildHandoff] and [buildClarify] throw the depth-limit error, which
    names the refused message type, when [depth.current] equals
    [depth.max], and return a text when [depth.current] is below
    [depth.max]; [buildResponse] and [buildBroadcast] return a text
    whatever the depth is. *)
Theorem depth_guard (nanoid : jsstring) (f : Fields) :
  let d := effectiveDepth f in
  (requestReady f ->
     (current d = max d -> buildRequest nanoid f = depthLimitError d "REQUEST")
     /\ ((current d < max d)%Z -> returns (buildRequest nanoid f)))
  /\ (handoffReady f ->
     (current d = max d -> buildHandoff f = depthLimitError d "HANDOFF")
     /\ ((current d < max d)%Z -> returns (buildHandoff f)))
  /\ (clarifyReady f ->
     (current d = max d -> buildClarify f = depthLimitError d "CLARIFY")
     /\ ((current d < max d)%Z -> returns (buildClarify f)))
  /\ (responseReady f -> returns (buildResponse f))
  /\ (broadcastReady f -> returns (buildBroadcast nanoid f)).
Proof.
  intros d.
  split; [intros H; split | split; [intros H; split | split;
    [intros H; split | split; intros H]]].
  - intros E. rewrite buildRequest_ready by assumption. cbv zeta. fold d.
    rewrite (proj2 (Z.eqb_eq _ _) E). symmetry. apply depthLimitError_message.
  - intros L. rewrite buildRequest_ready by assumption. cbv zeta. fold d.
    rewrite (proj2 (Z.eqb_neq _ _)) by lia. eexists. reflexivity.
  - intros E. rewrite buildHandoff_ready by assumption. cbv zeta. fold d.
    rewrite (proj2 (Z.eqb_eq _ _) E). symmetry. apply depthLimitError_message.
  - intros L. rewrite buildHandoff_ready by assumption. cbv zeta. fold d.
    rewrite (proj2 (Z.eqb_neq _ _)) by lia. eexists. reflexivity.
  - intros E. rewrite buildClarify_ready by assumption. cbv zeta. fold d.
    rewrite (proj2 (Z.eqb_eq _ _) E). symmetry. apply depthLimitError_message.
  - intros L. rewrite buildClarify_ready by assumption. cbv zeta. fold d.
    rewrite (proj2 (Z.eqb_neq _ _)) by lia. eexists. reflexivity.
  - rewrite buildResponse_ready by assumption. eexists. reflexivity.
  - rewrite buildBroadcast_ready by assumption. eexists. reflexivity.
Qed.

Lemma depth_guard_witness :
  buildRequest (js "k3x9q0") (allFields 5 5)
    = Throws (js "Depth limit reached (5/5). Cannot send REQUEST. Must send RESPONSE instead.")
  /\ returns (buildRequest (js "k3x9q0") (allFields 4 5))
  /\ buildHandoff (allFields 5 5)
    = Throws (js "Depth limit reached (5/5). Cannot send HANDOFF. Must send RESPONSE instead.")
  /\ returns (buildHandoff (allFields 4 5))
  /\ buildClarify (allFields 5 5)
    = Throws (js "Depth limit reached (5/5). Cannot send CLARIFY. Must send RESPONSE instead.")
  /\ returns (buildClarify (allFields 4 5))
  /\ returns (buildResponse (allFields 5 5))
  /\ returns (buildBroadcast (js "k3x9q0") (allFields 5 5)).
Proof.
  pose proof (depth_guard (js "k3x9q0") (allFields 5 5)) as H5.
  pose proof (depth_guard (js "k3x9q0") (allFields 4 5)) as H4.
  cbv zeta in H5, H4.
  destruct H5 as (R5 & H5 & C5 & S5 & B5), H4 as (R4 & H4 & C4 & _).
  split_ands.
  - etransitivity; [refine (proj1 (R5 _) _); repeat split |]. by_compute.
  - refine (proj2 (R4 _) _); repeat split.
  - etransitivity; [refine (proj1 (H5 _) _); repeat split |]. by_compute.
  - refine (proj2 (H4 _) _); repeat split.
  - etransitivity; [refine (proj1 (C5 _) _); repeat split |]. by_compute.
  - refine (proj2 (C4 _) _); repeat split.
  - apply S5. repeat split. left. reflexivity.
  - apply B5. repeat split.
Defined.

Lemma emits_intro pre line post text :
  text = pre ++ line ++ post -> emits (Returns text) line.
Proof. intros ->. exists pre, post. reflexivity. Qed.

(** C10. The depth guard fires at equality only: with the required fields
    present and [depth.current] above [depth.max], [buildRequest],
    [buildClarify] and [buildHandoff] return a text, and that text carries
    the over-limit [Depth] line as given. *)
Theorem depth_guard_equality_only (nanoid : jsstring) (f : Fields) :
  let d := effectiveDepth f in
  (max d < current d)%Z ->
  (requestReady f -> emits (buildRequest nanoid f) (depthLine d))
  /\ (clarifyReady f -> emits (buildClarify f) (depthLine d))
  /\ (handoffReady f -> emits (buildHandoff f) (depthLine d)).
Proof.
  intros d L.
  assert (E : (current d =? max d)%Z = false) by (apply Z.eqb_neq; lia).
  split; [| split]; intros H.
  - rewrite buildRequest_ready by assumption. cbv zeta. fold d. rewrite E.
    apply (emits_intro
      (headerLine (js "REQUEST") (str (to f))
       ++ js "From: " ++ str (from f) ++ nl
       ++ js "RequestId: "
       ++ str (js_or (requestId f)
                     (Some (generateRequestId nanoid (str (from f))))) ++ nl
       ++ js "Task: " ++ str (task f) ++ nl
       ++ optionalLine (js "Context: ") (context f))
      _
      (optionalLine (js "Callback: ") (callback f)
       ++ optionalLine (js "Priority: ") (priority f) ++ fence)).
    unfold depthLine, depthText. rewrite <- !app_assoc. reflexivity.
  - rewrite buildClarify_ready by assumption. cbv zeta. fold d. rewrite E.
    apply (emits_intro
      (headerLine (js "CLARIFY") (str (to f))
       ++ js "From: " ++ str (from f) ++ nl
       ++ js "RequestId: " ++ str (requestId f) ++ nl
       ++ js "Question: " ++ str (question f) ++ nl)
      _ fence).
    unfold depthLine, depthText. rewrite <- !app_assoc. reflexivity.
  - rewrite buildHandoff_ready by assumption. cbv zeta. fold d. rewrite E.
    apply (emits_intro
      (headerLine (js "HANDOFF") (str (to f))
       ++ js "From: " ++ str (from f) ++ nl
       ++ js "RequestId: " ++ str (requestId f) ++ nl
       ++ js "Task: " ++ str (task f) ++ nl
       ++ optionalLine (js "Context: ") (context f))
      _
      (optionalLine (js "Callback: ") (callback f)
       ++ optionalLine (js "Priority: ") (priority f) ++ fence)).
    unfold depthLine, depthText. rewrite <- !app_assoc. reflexivity.
Qed.

Lemma depth_guard_equality_only_witness :
  emits (buildRequest (js "k3x9q0") (allFields 6 5)) (js "Depth: 6/5" ++ nl)
  /\ emits (buildClarify (allFields 6 5)) (js "Depth: 6/5" ++ nl)
  /\ emits (buildHandoff (allFields 6 5)) (js "Depth: 6/5" ++ nl).
Proof.
  pose proof (depth_guard_equality_only (js "k3x9q0") (allFields 6 5)) as H.
  cbv zeta in H.
  destruct H as (R & C & H); [reflexivity |].
  change (js "Depth: 6/5" ++ nl)
    with (depthLine (effectiveDepth (allFields 6 5))).
  split_ands; [apply R | apply C | apply H]; repeat split.
Defined.

End BuilderDepth.

(** * Properties of the parser *)

Section ParserInvariants.

Import Parser.

Lemma includes_In arr x : includes arr x = true <-> In x arr.
Proof.
  unfold includes. rewrite existsb_exists. split.
  - intros (y & Hy & E). apply bool_decide_eq_true in E. now subst.
  - intros H. exists x. split; [assumption |]. now apply bool_decide_eq_true.
Qed.

Lemma str_eqb_eq a b : str_eqb a b = true <-> a = b.
Proof. apply bool_decide_eq_true. Qed.

Lemma str_eqb_refl a : str_eqb a a = true.
Proof. now apply str_eqb_eq. Qed.

(** *** The scanning loop keeps what [saveField] keeps *)

Lemma takeWhile_all p s : forallb p (takeWhile p s) = true.
Proof.
  induction s as [| c s IH]; simpl; [reflexivity |].
  destruct (p c) eqn:E; simpl; [now rewrite E |reflexivity].
Qed.

Lemma takeWhile_dropWhile p s : takeWhile p s ++ dropWhile p s = s.
Proof.
  induction s as [| c s IH]; simpl; [reflexivity |].
  destruct (p c); simpl; [now rewrite IH | reflexivity].
Qed.

Lemma expect_Some c s r : expect c s = Some r <-> s = c :: r.
Proof.
  destruct s as [| x s]; simpl; [split; discriminate |].
  destruct (N.eqb_spec x c) as [-> | Hne]; split; congruence.
Qed.

Lemma kvMatch_inv line key value :
  kvMatch line = Some (key, value) ->
  key <> [] /\ forallb isLetter key = true
  /\ exists ws, line = key ++ 58%N :: ws ++ value
       /\ forallb isWhiteSpace ws = true /\ forallb isDot value = true.
Proof.
  unfold kvMatch. intros H.
  pose proof (takeWhile_all isLetter line) as Hall.
  pose proof (takeWhile_dropWhile isLetter line) as Hsplit.
  destruct (takeWhile isLetter line) as [| c k] eqn:Ek; [discriminate |].
  destruct (expect 58 (dropWhile isLetter line)) as [r |] eqn:Er;
    [| discriminate].
  apply expect_Some in Er.
  destruct (forallb isDot (dropWhile isWhiteSpace r)) eqn:Edot; [| discriminate].
  injection H as <- <-.
  split; [discriminate |]. split; [assumption |].
  exists (takeWhile isWhiteSpace r). split; [| split].
  - rewrite <- Hsplit, Er. f_equal. f_equal. symmetry.
    apply takeWhile_dropWhile.
  - apply takeWhile_all.
  - assumption.
Qed.

Lemma in_range_spec lo hi c : in_range lo hi c = true <-> (lo <= c <= hi)%N.
Proof. unfold in_range. rewrite andb_true_iff, !N.leb_le. reflexivity. Qed.

Lemma lowerUnit_letter c :
  isLetter c = true ->
  exists d, lowerUnit c = [d] /\ in_range 97 122 d = true.
Proof.
  unfold isLetter, lowerUnit. intros H.
  destruct (in_range 65 90 c) eqn:E.
  - apply in_range_spec in E. eexists. split; [reflexivity |].
    apply in_range_spec. lia.
  - simpl in H. pose proof H as H'. apply in_range_spec in H'.
    destruct (N.eqb_spec c 8490); [lia |].
    destruct (N.eqb_spec c 304); [lia |].
    eexists. split; [reflexivity | assumption].
Qed.

Lemma toLowerCase_letters k :
  forallb isLetter k = true -> forallb (in_range 97 122) (toLowerCase k) = true.
Proof.
  induction k as [| c k IH]; simpl; [reflexivity |].
  intros H. apply andb_true_iff in H as [Hc Hk].
  destruct (lowerUnit_letter c Hc) as (d & Ed & Hd).
  unfold toLowerCase in *. simpl. rewrite Ed. simpl.
  now rewrite Hd, (IH Hk).
Qed.

Lemma toLowerCase_nonempty k : k <> [] -> toLowerCase k <> [].
Proof.
  destruct k as [| c k]; [congruence |]. intros _.
  unfold toLowerCase. simpl. unfold lowerUnit.
  split_ifs; discriminate.
Qed.

Lemma kvMatch_lowerKey line key value :
  kvMatch line = Some (key, value) -> lowerKey (toLowerCase key).
Proof.
  intros H. apply kvMatch_inv in H as (Hne & Hall & _). split.
  - now apply toLowerCase_nonempty.
  - now apply toLowerCase_letters.
Qed.

(** What holds of the start and is kept by every [saveField] under a
    lower-case key holds of the scanned message. *)
Lemma scanFields_invariant (P : Message -> Prop) start body :
  P start ->
  (forall r k v, P r -> lowerKey k -> P (saveField r k v)) ->
  P (scanFields start body).
Proof.
  intros Hstart Hsave. unfold scanFields.
  set (s0 := {| acc := start; currentKey := None; currentValue := [] |}).
  assert (Hs : P (acc s0)
               /\ (forall k, currentKey s0 = Some k -> lowerKey k))
    by (split; [assumption | discriminate]).
  clearbody s0. revert s0 Hs.
  assert (Hflush : forall s,
             P (acc s) /\ (forall k, currentKey s = Some k -> lowerKey k) ->
             P (flush s)).
  { intros s [Ha Hk]. unfold flush.
    destruct (currentKey s) as [[| c k] |] eqn:E; try assumption.
    apply Hsave; [assumption | now apply Hk]. }
  induction body as [| line body IH]; intros s Hs; simpl.
  - now apply Hflush.
  - apply IH. unfold scanLine.
    destruct (kvMatch line) as [[key value] |] eqn:E; simpl.
    + split; [now apply Hflush |].
      intros k [= <-]. eapply kvMatch_lowerKey, E.
    + destruct (truthy (currentKey s)); simpl; assumption.
Qed.

(** *** What [saveField] changes *)

Lemma saveField_frame r k v :
  type (saveField r k v) = type r
  /\ to (saveField r k v) = to r
  /\ raw (saveField r k v) = raw r.
Proof. unfold saveField, setProp. cbv zeta. split_ifs; repeat split. Qed.

Lemma saveField_status r k v :
  status (saveField r k v) = status r
  \/ status (saveField r k v) = None
  \/ (status (saveField r k v) = Some (trim v)
      /\ includes VALID_STATUSES (trim v) = true).
Proof.
  unfold saveField, setProp. cbv zeta.
  destruct (includes knownFields _); [| left; reflexivity].
  destruct (str_eqb _ k_status) eqn:Es; cbn [andb];
    destruct (includes VALID_STATUSES (trim v)) eqn:Ev; cbn [negb];
    split_ifs;
    first [ left; reflexivity
          | right; left; reflexivity
          | right; right; split; reflexivity ].
Qed.


(** *** Inversion of [parse] *)

Lemma scanFields_frame start body :
  type (scanFields start body) = type start
  /\ to (scanFields start body) = to start
  /\ raw (scanFields start body) = raw start.
Proof.
  apply (scanFields_invariant
           (fun r => type r = type start /\ to r = to start
                     /\ raw r = raw start)).
  - repeat split.
  - intros r k v (H1 & H2 & H3) _.
    destruct (saveField_frame r k v) as (-> & -> & ->). now repeat split.
Qed.

Lemma scanFields_status start body :
  statusValid (status start) -> statusValid (status (scanFields start body)).
Proof.
  intros H0.
  apply (scanFields_invariant (fun r => statusValid (status r)));
    [assumption |].
  intros r k v H _.
  destruct (saveField_status r k v) as [-> | [-> | [-> Hin]]].
  - assumption.
  - now left.
  - right. eexists. split; [reflexivity |]. now apply includes_In.
Qed.


Lemma parseDepth_frame r :
  type (parseDepth r) = type r /\ to (parseDepth r) = to r
  /\ from (parseDepth r) = from r /\ requestId (parseDepth r) = requestId r
  /\ task (parseDepth r) = task r /\ result (parseDepth r) = result r
  /\ status (parseDepth r) = status r /\ question (parseDepth r) = question r
  /\ message (parseDepth r) = message r /\ meta (parseDepth r) = meta r.
Proof.
  unfold parseDepth.
  destruct (depth r) as [| [| c t] |]; try (repeat split; fail).
  destruct (depthMatch (c :: t)) as [[cur mx] |]; repeat split.
Qed.

(** Everything [parse] checked on the way to returning [m]. *)
Lemma parse_inv raw m :
  parse raw = Some m ->
  exists block header body ty rcpt,
    codeBlockMatch raw = Some block
    /\ split_lines (trim block) = header :: body
    /\ headerMatch header = Some (ty, rcpt)
    /\ In ty VALID_TYPES
    /\ let r := scanFields (emptyMessage ty rcpt raw) body in
       truthy (from r) = true /\ truthy (requestId r) = true
       /\ typeFieldsMissing ty (parseDepth r) = false
       /\ m = parseDepth r.
Proof.
  unfold parse. intros H.
  destruct raw as [| c0 raw0]; [discriminate |].
  destruct (codeBlockMatch (c0 :: raw0)) as [block |] eqn:Eb; [| discriminate].
  destruct (split_lines (trim block)) as [| header body] eqn:El;
    [discriminate |].
  destruct (headerMatch header) as [[ty rcpt] |] eqn:Eh; [| discriminate].
  destruct (includes VALID_TYPES ty) eqn:Ety; [| discriminate].
  cbn [negb] in H. cbv zeta in H.
  destruct (truthy (from _)) eqn:Efrom; [| discriminate].
  destruct (truthy (requestId _)) eqn:Eid; [| discriminate].
  cbn [negb orb] in H.
  destruct (typeFieldsMissing ty _) eqn:Emiss; [discriminate |].
  injection H as <-.
  exists block, header, body, ty, rcpt.
  split; [reflexivity |]. split; [assumption |]. split; [assumption |].
  split; [now apply includes_In |].
  cbv zeta. now repeat split.
Qed.

(** C3. [parse] returns a message only when [from] and [requestId] are
    present and the requirement of its type holds: [task] for REQUEST and
    HANDOFF, [result] or [status] for RESPONSE, [question] for CLARIFY,
    [message] for BROADCAST.  An input that misses one of them is rejected,
    so no returned message is partially valid. *)
Theorem parse_complete_or_nothing (raw : jsstring) (m : Message) :
  parse raw = Some m ->
  truthy (from m) = true
  /\ truthy (requestId m) = true
  /\ In (type m) VALID_TYPES
  /\ (type m = REQUEST \/ type m = HANDOFF -> truthy (task m) = true)
  /\ (type m = RESPONSE ->
      truthy (result m) = true \/ truthy (status m) = true)
  /\ (type m = CLARIFY -> truthy (question m) = true)
  /\ (type m = BROADCAST -> truthy (message m) = true).
Proof.
  intros H.
  apply parse_inv in H
    as (block & header & body & ty & rcpt & _ & _ & _ & Hty & H).
  cbv zeta in H. destruct H as (Hfrom & Hid & Hmiss & ->).
  set (r := scanFields (emptyMessage ty rcpt raw) body) in *.
  destruct (parseDepth_frame r)
    as (Et & _ & Ef & Ei & Etask & Eres & Est & Eq & Emsg & _).
  destruct (scanFields_frame (emptyMessage ty rcpt raw) body) as (Et' & _).
  fold r in Et'. simpl in Et'.
  rewrite Et, Ef, Ei, Etask, Eres, Est, Eq, Emsg, Et'.
  unfold typeFieldsMissing in Hmiss.
  rewrite Etask, Eres, Est, Eq, Emsg in Hmiss.
  repeat (apply orb_false_iff in Hmiss as [Hmiss ?]).
  split; [assumption |]. split; [assumption |]. split; [assumption |].
  split_ands.
  - intros [-> | ->].
    + rewrite str_eqb_refl in Hmiss. cbn in Hmiss.
      now apply negb_false_iff in Hmiss.
    + rewrite str_eqb_refl in *. cbn in *.
      match goal with H : negb (truthy (task r)) = false |- _ =>
        now apply negb_false_iff in H end.
  - intros ->. rewrite str_eqb_refl in *. cbn in *.
    match goal with H : negb (truthy (result r)) && _ = false |- _ =>
      apply andb_false_iff in H as [H | H];
      apply negb_false_iff in H; [left | right]; assumption end.
  - intros ->. rewrite str_eqb_refl in *. cbn in *.
    match goal with H : negb (truthy (question r)) = false |- _ =>
      now apply negb_false_iff in H end.
  - intros ->. rewrite str_eqb_refl in *. cbn in *.
    match goal with H : negb (truthy (message r)) = false |- _ =>
      now apply negb_false_iff in H end.
Qed.

Lemma parse_complete_or_nothing_witness :
  truthy (from validRequestMessage) = true
  /\ truthy (requestId validRequestMessage) = true
  /\ truthy (task validRequestMessage) = true.
Proof.
  destruct (parse_complete_or_nothing validRequest validRequestMessage
              parse_validRequest) as (Hf & Hi & _ & Ht & _).
  split_ands; [exact Hf | exact Hi | apply Ht; left; reflexivity].
Defined.

End ParserInvariants.

(** ** The depth of a parsed message *)

Section ParsedDepth.

Import Parser.






End ParsedDepth.

(** * Properties of the state store *)

Section Tracking.

Import StateStore.

Variable clock : nat -> Z.

(** What one call of [track] does to the store. *)
Lemma track_effect (m : Parser.Message) (w : World) :
  let key := keyOf (Parser.requestId m) in
  exists c',
    disk (after (track clock m) w) = <[key := c']> (disk w)
    /\ answer (track clock m) w = Some c'
    /\ reads (after (track clock m) w) = S (reads w)
    /\ updatedAt c' = clock (reads w)
    /\ lastType c' = Some (Parser.type m)
    /\ depth c' =
         match disk w !! key with
         | Some conv => depth conv
         | None =>
             match Parser.depth m with
             | Parser.DepthPair current _ => Some current
             | Parser.DepthText (_ :: _) => None
             | _ => Some 1%N
             end
         end
    /\ status c' =
         if str_eqb (Parser.type m) Parser.RESPONSE
         then or_text (Parser.status m) s_done
         else match disk w !! key with
              | Some conv =>
                  if str_eqb (Parser.type m) Parser.CLARIFY
                  then s_clarifying else status conv
              | None => s_open
              end.
Proof.
  intros key. unfold after, answer, track, bind, loadState, dateNow,
    saveState, ret. cbn. fold key.
  destruct (disk w !! key) as [conv |] eqn:E;
    rewrite alter_insert_eq, lookup_insert_eq;
    eexists; (split; [reflexivity |]); (split; [reflexivity |]);
    cbn; split_ands; try reflexivity.
Qed.

Lemma parsed_status (m : Parser.Message) :
  parsed m -> statusValid (Parser.status m).
Proof.
  intros [raw H].
  apply parse_inv in H
    as (block & header & body & ty & rcpt & _ & _ & _ & _ & H).
  cbv zeta in H. destruct H as (_ & _ & _ & ->).
  destruct (parseDepth_frame
              (Parser.scanFields (Parser.emptyMessage ty rcpt raw) body))
    as (_ & _ & _ & _ & _ & _ & -> & _).
  apply scanFields_status. now left.
Qed.


(** The status a RESPONSE brings is never [timeout]. *)
Lemma response_status_not_timeout (m : Parser.Message) :
  statusValid (Parser.status m) ->
  or_text (Parser.status m) s_done <> s_timeout.
Proof.
  intros [-> | (s & -> & Hin)]; [discriminate |].
  repeat (destruct Hin as [<- | Hin]; [discriminate |]). destruct Hin.
Qed.

Lemma track_keeps_timeouts (m : Parser.Message) (w : World) id c' :
  parsed m ->
  disk (after (track clock m) w) !! id = Some c' ->
  status c' = s_timeout ->
  exists c, disk w !! id = Some c /\ status c = s_timeout.
Proof.
  intros Hm Hc' Hst.
  destruct (track_effect m w) as (c0 & Hd & _ & _ & _ & _ & _ & Hs).
  rewrite Hd in Hc'.
  destruct (decide (keyOf (Parser.requestId m) = id)) as [<- | Hne].
  - rewrite lookup_insert_eq in Hc'. injection Hc' as <-.
    rewrite Hs in Hst.
    destruct (str_eqb (Parser.type m) Parser.RESPONSE).
    + now apply response_status_not_timeout in Hst; [| apply parsed_status].
    + destruct (disk w !! keyOf (Parser.requestId m)) as [conv |];
        [| discriminate].
      destruct (str_eqb (Parser.type m) Parser.CLARIFY); [discriminate |].
      now exists conv.
  - rewrite lookup_insert_ne in Hc' by assumption. now exists c'.
Qed.

Lemma trackAll_keeps_timeouts (ms : list Parser.Message) (w : World) id c' :
  Forall parsed ms ->
  disk (after (trackAll clock ms) w) !! id = Some c' ->
  status c' = s_timeout ->
  exists c, disk w !! id = Some c /\ status c = s_timeout.
Proof.
  intros Hms. revert w c'.
  induction Hms as [| m ms Hm Hms IH]; intros w c' Hc' Hst.
  - now exists c'.
  - unfold after in *. cbn [trackAll] in Hc'. unfold bind in Hc'.
    destruct (track clock m w) as [a w1] eqn:E.
    destruct (IH w1 c' Hc' Hst) as (c1 & Hc1 & Hst1).
    apply (track_keeps_timeouts m w id c1 Hm); [| assumption].
    unfold after. now rewrite E.
Qed.

Lemma timeout_effect (id reason : jsstring) (w : World) (c : Conversation) :
  disk w !! id = Some c ->
  disk (after (timeout clock id reason) w)
  = <[id := markTimedOut c reason (clock (reads w)) (clock (S (reads w)))]>
      (disk w)
  /\ reads (after (timeout clock id reason) w) = S (S (reads w)).
Proof.
  intros H. unfold after, timeout, bind, loadState, dateNow, saveState, ret.
  cbn. rewrite H. cbn. split; reflexivity.
Qed.

Lemma timeout_unknown (id reason : jsstring) (w : World) :
  disk w !! id = None -> after (timeout clock id reason) w = w.
Proof.
  intros H. unfold after, timeout, bind, loadState, ret. cbn. now rewrite H.
Qed.

(** C8. Whatever messages produced by [parse] are tracked, a record that
    has the status [timeout] afterwards had it before: [track] never sets
    it.  [timeout], which the sweep of [checkTimeouts] calls, does set
    it. *)
Theorem timeout_only_by_sweep :
  (forall (ms : list Parser.Message) (w : World) id c',
      Forall parsed ms ->
      disk (after (trackAll clock ms) w) !! id = Some c' ->
      status c' = s_timeout ->
      exists c, disk w !! id = Some c /\ status c = s_timeout)
  /\ (forall (id reason : jsstring) (w : World),
      is_Some (disk w !! id) ->
      exists c', disk (after (timeout clock id reason) w) !! id = Some c'
                 /\ status c' = s_timeout).
Proof.
  split.
  - intros ms w id c'. apply trackAll_keeps_timeouts.
  - intros id reason w [c Hc].
    destruct (timeout_effect id reason w c Hc) as [-> _].
    rewrite lookup_insert_eq. eexists. split; reflexivity.
Qed.


End Tracking.

Lemma timeout_only_by_sweep_witness :
  (exists c, StateStore.disk timedOutWorld !! js "lotbot-abc123" = Some c
             /\ StateStore.status c = StateStore.s_timeout)
  /\ (exists c',
        StateStore.disk
          (after (StateStore.timeout tickingClock (js "lotbot-abc123")
                    (js "again")) timedOutWorld)
          !! js "lotbot-abc123" = Some c'
        /\ StateStore.status c' = StateStore.s_timeout).
Proof.
  split.
  - refine (proj1 (timeout_only_by_sweep tickingClock)
              [validRequestMessage] timedOutWorld (js "lotbot-abc123") _
              _ _ _).
    + constructor; [| constructor]. exists Parser.validRequest.
      exact parse_validRequest.
    + by_compute.
    + reflexivity.
  - apply (proj2 (timeout_only_by_sweep tickingClock)).
    eexists. by_compute.
Defined.



Section Cleanup.

Import StateStore.

Variable clock : nat -> Z.

(** The loop of [cleanup] over entries [l] that are all still in [st]:
    the entries that pass the test are deleted and counted, everything
    else stays. *)
Lemma cleanup_loop (now limit : Z) (l : list (jsstring * Conversation))
    (st : gmap (list N) Conversation) (n : nat) :
  NoDup l.*1 ->
  (forall id c, (id, c) ∈ l -> st !! id = Some c) ->
  exists st' n',
    fold_left (cleanupEntry now limit) l (st, n) = (st', n')
    /\ (forall id c, (id, c) ∈ l ->
          st' !! id = if removable cleanupStatuses now limit c
                      then None else Some c)
    /\ (forall id, id ∉ l.*1 -> st' !! id = st !! id)
    /\ n' + size st' = n + size st
    /\ n <= n' /\ (n' = n -> st' = st).
Proof.
  revert st n. induction l as [| [i c] l IH]; intros st n Hnd Hin.
  - exists st, n. split; [reflexivity |]. split; [| easy].
    intros id c H. now apply elem_of_nil in H.
  - cbn [fmap list_fmap fst] in Hnd. apply NoDup_cons in Hnd as [Hi Hnd].
    assert (Hic : st !! i = Some c) by (apply Hin; left).
    assert (Etest : ((now - updatedAt c >? limit)%Z
                     && includes cleanupStatuses (status c))
                    = removable cleanupStatuses now limit c).
    { unfold removable. rewrite andb_comm. f_equal.
      rewrite Z.gtb_ltb. reflexivity. }
    cbn [fold_left cleanupEntry]. rewrite Etest.
    destruct (removable cleanupStatuses now limit c) eqn:Er.
    + destruct (IH (delete i st) (S n) Hnd)
        as (st' & n' & Hf & Hl & Ho & Hs & Hle & Heq).
      { intros id c' H. rewrite lookup_delete_ne; [apply Hin; now right |].
        intros <-. apply Hi. now apply (list_elem_of_fmap_2 fst) in H. }
      exists st', n'. split; [assumption |]. split_ands.
      * intros id c' H. apply elem_of_cons in H as [[= -> ->] | H].
        -- rewrite Er, Ho by assumption. apply lookup_delete_eq.
        -- now apply Hl.
      * intros id H. cbn [fmap list_fmap fst] in H.
        apply not_elem_of_cons in H as [Hne H].
        rewrite Ho by assumption. now apply lookup_delete_ne.
      * rewrite Hs, map_size_delete_Some by (now exists c).
        assert (size st <> 0).
        { intros H0. apply map_size_empty_iff in H0. subst st.
          now rewrite lookup_empty in Hic. }
        lia.
      * lia.
      * lia.
    + destruct (IH st n Hnd) as (st' & n' & Hf & Hl & Ho & Hs & Hle & Heq).
      { intros id c' H. apply Hin. now right. }
      exists st', n'. split; [assumption |]. split_ands.
      * intros id c' H. apply elem_of_cons in H as [[= -> ->] | H].
        -- rewrite Er, Ho by assumption. assumption.
        -- now apply Hl.
      * intros id H. cbn [fmap list_fmap fst] in H.
        apply not_elem_of_cons in H as [Hne H]. now apply Ho.
      * assumption.
      * assumption.
      * assumption.
Qed.

(** [cleanup] in terms of the state it leaves and the count it returns. *)
Lemma cleanup_effect (olderThanMs : option Z) (w : World) :
  let now := clock (reads w) in
  let limit := default (24 * 60 * 60 * 1000)%Z olderThanMs in
  let w' := after (cleanup clock olderThanMs) w in
  (forall id,
      disk w' !! id =
        match disk w !! id with
        | Some c =>
            if removable cleanupStatuses now limit c then None else Some c
        | None => None
        end)
  /\ answer (cleanup clock olderThanMs) w + size (disk w') = size (disk w).
Proof.
  intros now limit w'.
  destruct (cleanup_loop now limit (map_to_list (disk w)) (disk w) 0)
    as (st' & n' & Hf & Hl & Ho & Hs & _ & Heq).
  { apply NoDup_fst_map_to_list. }
  { intros id c. apply elem_of_map_to_list. }
  assert (Hlook : forall id,
             st' !! id =
               match disk w !! id with
               | Some c =>
                   if removable cleanupStatuses now limit c
                   then None else Some c
               | None => None
               end).
  { intros id. destruct (disk w !! id) as [c |] eqn:E.
    - apply Hl. now apply elem_of_map_to_list.
    - rewrite Ho; [assumption |]. intros H.
      apply list_elem_of_fmap in H as ([id' c] & -> & H).
      apply elem_of_map_to_list in H. cbn in E. congruence. }
  subst w'. unfold after, answer, cleanup, bind, loadState, dateNow, ret.
  cbn. fold now limit. rewrite Hf.
  destruct n' as [| n']; cbn.
  - rewrite (Heq eq_refl) in Hlook. split; [exact Hlook | reflexivity].
  - split; [exact Hlook | lia].
Qed.

(** C5, as the store has it.  [cleanup] deletes exactly the records whose
    status is [done], [failed] or [timeout] and whose age exceeds
    [olderThanMs], and returns how many it deleted; a record whose status
    is [open], [clarifying] or [partial] stays whatever its age. *)
Theorem cleanup_removes_completed (olderThanMs : option Z) (w : World) :
  let now := clock (reads w) in
  let limit := default (24 * 60 * 60 * 1000)%Z olderThanMs in
  let w' := after (cleanup clock olderThanMs) w in
  (forall id,
      disk w' !! id =
        match disk w !! id with
        | Some c =>
            if removable [s_done; s_failed; s_timeout] now limit c
            then None else Some c
        | None => None
        end)
  /\ answer (cleanup clock olderThanMs) w = size (disk w) - size (disk w')
  /\ (forall id c,
        disk w !! id = Some c ->
        In (status c) [s_open; s_clarifying; s_partial] ->
        disk w' !! id = Some c).
Proof.
  intros now limit w'.
  destruct (cleanup_effect olderThanMs w) as [Hl Hs].
  fold now limit w' in Hl, Hs.
  split; [exact Hl |]. split; [lia |].
  intros id c Hc Hst. rewrite Hl, Hc.
  replace (removable cleanupStatuses now limit c) with false; [reflexivity |].
  unfold removable.
  repeat (destruct Hst as [<- | Hst]; [reflexivity |]). destruct Hst.
Qed.

End Cleanup.

Lemma cleanup_removes_completed_witness :
  exists c,
    StateStore.disk
      (after (StateStore.cleanup tickingClock (Some 0%Z))
         (after (StateStore.track tickingClock validRequestMessage)
            emptyWorld))
      !! js "lotbot-abc123" = Some c
    /\ StateStore.status c = StateStore.s_open.
Proof.
  eexists. split.
  - refine (proj2 (proj2 (cleanup_removes_completed tickingClock (Some 0%Z)
              (after (StateStore.track tickingClock validRequestMessage)
                 emptyWorld))) (js "lotbot-abc123") _ _ _).
    + by_compute.
    + left. reflexivity.
  - reflexivity.
Defined.

(** C5 fails as stated: a record of status [partial], which the glossary
    counts as terminal, older than the threshold, is kept and not
    counted. *)
Lemma cleanup_keeps_partial :
  exists c,
    StateStore.disk partialWorld !! js "lotbot-abc123" = Some c
    /\ removable terminalStatuses
         (tickingClock (StateStore.reads partialWorld)) 0 c = true
    /\ StateStore.disk
         (after (StateStore.cleanup tickingClock (Some 0%Z)) partialWorld)
         !! js "lotbot-abc123" = Some c
    /\ answer (StateStore.cleanup tickingClock (Some 0%Z)) partialWorld = 0.
Proof.
  eexists. split; [by_compute |]. split; [by_compute |].
  split; by_compute.
Qed.

Section Timeouts.

Import StateStore.

Variable clock : nat -> Z.

(** The lookup in [DEFAULT_TIMEOUTS] is the table of the specification. *)
Lemma timeoutMsOf_table (c : Conversation) :
  timeoutMsOf c = Some (windowMinutes (messageTypeOf c) * 60 * 1000)%Z.
Proof.
  unfold timeoutMsOf, windowMinutes, property, DEFAULT_TIMEOUTS.
  cbn [List.find fst snd].
  destruct (str_eqb (messageTypeOf c) Parser.CLARIFY); [reflexivity |].
  destruct (str_eqb (messageTypeOf c) Parser.REQUEST); [reflexivity |].
  destruct (str_eqb (messageTypeOf c) Parser.HANDOFF); [reflexivity |].
  destruct (str_eqb (messageTypeOf c) Parser.BROADCAST); reflexivity.
Qed.


(** One iteration of the loop, on an entry that is still in the store. *)
Lemma checkEntry_effect (now : Z) (acc : list jsstring) id c (w : World) :
  disk w !! id = Some c ->
  if stalled now c
  then exists reason,
      checkEntry clock now acc (id, c) w
      = (acc ++ [id],
         {| disk := <[id := markTimedOut c reason (clock (reads w))
                               (clock (S (reads w)))]> (disk w);
            reads := S (S (reads w)) |})
  else checkEntry clock now acc (id, c) w = (acc, w).
Proof.
  intros Hc. unfold stalled, checkEntry.
  rewrite <- negb_orb, timeoutMsOf_table. cbn [num_gt]. rewrite Z.gtb_ltb.
  destruct (str_eqb (status c) s_open || str_eqb (status c) s_clarifying);
    cbn [negb andb]; [| reflexivity].
  destruct (_ <? _)%Z; [| reflexivity].
  eexists. unfold bind, timeout, loadState, dateNow, saveState, ret.
  cbn. rewrite Hc. cbn. reflexivity.
Qed.

Lemma checkTimeouts_loop (now : Z) (l : list (jsstring * Conversation))
    (acc : list jsstring) (w : World) :
  NoDup l.*1 ->
  (forall id c, (id, c) ∈ l -> disk w !! id = Some c) ->
  exists ids w',
    forEach l (checkEntry clock now) acc w = (ids, w')
    /\ ids = acc ++ (List.filter (fun e => stalled now e.2) l).*1
    /\ (forall id c, (id, c) ∈ l -> stalled now c = true ->
          exists reason t1 t2,
            disk w' !! id = Some (markTimedOut c reason t1 t2))
    /\ (forall id c, (id, c) ∈ l -> stalled now c = false ->
          disk w' !! id = Some c)
    /\ (forall id, id ∉ l.*1 -> disk w' !! id = disk w !! id).
Proof.
  revert acc w. induction l as [| [i c] l IH]; intros acc w Hnd Hin.
  - exists acc, w. split; [reflexivity |]. split; [now rewrite app_nil_r |].
    split_ands; try easy; intros id c H; now apply elem_of_nil in H.
  - cbn [fmap list_fmap fst] in Hnd. apply NoDup_cons in Hnd as [Hi Hnd].
    assert (Hic : disk w !! i = Some c) by (apply Hin; left).
    pose proof (checkEntry_effect now acc i c w Hic) as He.
    cbn [forEach]. unfold bind at 1. cbn [List.filter snd].
    destruct (stalled now c) eqn:Es.
    + destruct He as [reason ->].
      set (w1 := {| disk := _; reads := _ |}).
      destruct (IH (acc ++ [i]) w1 Hnd) as (ids & w' & Hf & Hids & Ht & Hk & Ho).
      { intros id c' H. subst w1. cbn. rewrite lookup_insert_ne.
        - apply Hin. now right.
        - intros <-. apply Hi. now apply (list_elem_of_fmap_2 fst) in H. }
      exists ids, w'. split; [assumption |].
      split; [rewrite Hids, <- app_assoc; reflexivity |]. split_ands.
      * intros id c' H Hs. apply elem_of_cons in H as [[= -> ->] | H].
        -- rewrite Ho by assumption. subst w1. cbn.
           rewrite lookup_insert_eq. eauto.
        -- now apply Ht.
      * intros id c' H Hs. apply elem_of_cons in H as [[= -> ->] | H].
        -- congruence.
        -- now apply Hk.
      * intros id H. cbn [fmap list_fmap fst] in H.
        apply not_elem_of_cons in H as [Hne H].
        rewrite Ho by assumption. subst w1. cbn. now apply lookup_insert_ne.
    + rewrite He.
      destruct (IH acc w Hnd) as (ids & w' & Hf & Hids & Ht & Hk & Ho).
      { intros id c' H. apply Hin. now right. }
      exists ids, w'. split; [assumption |]. split; [assumption |].
      split_ands.
      * intros id c' H Hs. apply elem_of_cons in H as [[= -> ->] | H].
        -- congruence.
        -- now apply Ht.
      * intros id c' H Hs. apply elem_of_cons in H as [[= -> ->] | H].
        -- rewrite Ho by assumption. assumption.
        -- now apply Hk.
      * intros id H. cbn [fmap list_fmap fst] in H.
        apply not_elem_of_cons in H as [Hne H]. now apply Ho.
Qed.



End Timeouts.


(** Nine minutes after the CLARIFY the record is not flagged. *)
Example checkTimeouts_within_window :
  answer (StateStore.checkTimeouts quickClock) recentWorld = [].
Proof. by_compute. Qed.

(** ** Unknown fields *)

Section UnknownFields.

Import Parser.

Lemma lowerUnit_lower c : in_range 97 122 c = true -> lowerUnit c = [c].
Proof.
  intros H. apply in_range_spec in H. unfold lowerUnit.
  destruct (in_range 65 90 c) eqn:E; [apply in_range_spec in E; lia |].
  destruct (N.eqb_spec c 8490); [lia |].
  destruct (N.eqb_spec c 304); [lia | reflexivity].
Qed.

Lemma toLowerCase_lower k :
  forallb (in_range 97 122) k = true -> toLowerCase k = k.
Proof.
  induction k as [| c k IH]; [reflexivity |]. cbn [forallb].
  intros H. apply andb_true_iff in H as [Hc Hk].
  unfold toLowerCase in *. cbn [flat_map].
  now rewrite lowerUnit_lower, IH.
Qed.

Lemma stripHyphens_lower k :
  forallb (in_range 97 122) k = true -> stripHyphens k = k.
Proof.
  induction k as [| c k IH]; [reflexivity |]. cbn [forallb].
  intros H. apply andb_true_iff in H as [Hc Hk].
  unfold stripHyphens in *. cbn [List.filter]. apply in_range_spec in Hc.
  destruct (N.eqb_spec c 45); [lia |]. destruct (N.eqb_spec c 95); [lia |].
  cbn. now rewrite IH.
Qed.

(** The key [saveField] looks up is the key the loop kept. *)
Lemma normalized_lowerKey k :
  lowerKey k -> stripHyphens (toLowerCase k) = k.
Proof.
  intros [_ H]. now rewrite toLowerCase_lower, stripHyphens_lower.
Qed.

Lemma saveField_meta_unknown r k v :
  includes knownFields (stripHyphens (toLowerCase k)) = false ->
  meta (saveField r k v) = <[k := trim v]> (meta r).
Proof. intros H. unfold saveField. cbv zeta. now rewrite H. Qed.

Lemma saveField_meta_known r k v :
  includes knownFields (stripHyphens (toLowerCase k)) = true ->
  meta (saveField r k v) = meta r.
Proof.
  intros H. unfold saveField, setProp. cbv zeta. rewrite H.
  split_ifs; reflexivity.
Qed.

Lemma saveField_meta_other r k v k' :
  k <> k' -> meta (saveField r k v) !! k' = meta r !! k'.
Proof.
  intros Hne.
  destruct (includes knownFields (stripHyphens (toLowerCase k))) eqn:E.
  - now rewrite saveField_meta_known.
  - rewrite saveField_meta_unknown by assumption.
    now apply lookup_insert_ne.
Qed.

(** Saves under other keys leave the entry of [lk] alone. *)
Lemma scan_keeps_entry (lk : jsstring) (rest : list jsstring) (s : Scan) :
  currentKey s <> Some lk ->
  Forall (fun l => lineKey l <> Some lk) rest ->
  meta (flush (fold_left scanLine rest s)) !! lk = meta (acc s) !! lk.
Proof.
  intros Hk Hrest. revert s Hk.
  induction Hrest as [| l rest Hl Hrest IH]; intros s Hk; cbn [fold_left].
  - unfold flush. destruct (currentKey s) as [[| c k] |]; try reflexivity.
    apply saveField_meta_other. congruence.
  - rewrite IH.
    + unfold scanLine. unfold lineKey in Hl.
      destruct (kvMatch l) as [[key value] |]; cbn [acc].
      * unfold flush. destruct (currentKey s) as [[| c k] |]; try reflexivity.
        apply saveField_meta_other. congruence.
      * destruct (truthy (currentKey s)); reflexivity.
    + unfold scanLine. unfold lineKey in Hl.
      destruct (kvMatch l) as [[key value] |]; cbn [currentKey].
      * assumption.
      * destruct (truthy (currentKey s)); assumption.
Qed.

(** From a pending unknown key [lk] on, the entry of [lk] ends up being
    the pending value with its continuation lines. *)
Lemma scan_saves_pending (lk : jsstring) (rest : list jsstring) (s : Scan) :
  lowerKey lk ->
  includes knownFields lk = false ->
  currentKey s = Some lk ->
  Forall (fun l => lineKey l <> Some lk) rest ->
  meta (flush (fold_left scanLine rest s)) !! lk
  = Some (trim (join_lines (currentValue s ++ continuation rest))).
Proof.
  intros Hlk Hunk Hk Hrest. revert s Hk.
  assert (Hsave : forall r v, meta (saveField r lk v) !! lk = Some (trim v)).
  { intros r v. rewrite saveField_meta_unknown.
    - apply lookup_insert_eq.
    - now rewrite normalized_lowerKey. }
  induction Hrest as [| l rest Hl Hrest IH]; intros s Hk;
    cbn [fold_left continuation].
  - rewrite app_nil_r. unfold flush. rewrite Hk.
    destruct lk as [| c k]; [now destruct Hlk |]. apply Hsave.
  - unfold lineKey in Hl.
    destruct (kvMatch l) as [[key value] |] eqn:E.
    + rewrite app_nil_r, scan_keeps_entry; [| | assumption].
      * unfold scanLine. rewrite E. cbn [acc]. unfold flush. rewrite Hk.
        destruct lk as [| c k]; [now destruct Hlk |]. apply Hsave.
      * unfold scanLine. rewrite E. cbn [currentKey]. assumption.
    + rewrite IH.
      * unfold scanLine. rewrite E, Hk.
        destruct lk as [| c k]; [now destruct Hlk |].
        cbn [truthy currentValue]. now rewrite <- app_assoc.
      * unfold scanLine. rewrite E, Hk.
        destruct lk as [| c k]; [now destruct Hlk | reflexivity].
Qed.

Lemma scanFields_field (start : Message) pre line rest key value :
  kvMatch line = Some (key, value) ->
  includes knownFields (stripHyphens (toLowerCase key)) = false ->
  Forall (fun l => lineKey l <> Some (toLowerCase key)) rest ->
  meta (scanFields start (pre ++ line :: rest)) !! toLowerCase key
  = Some (trim (join_lines (value :: continuation rest))).
Proof.
  intros Hkv Hunk Hrest. unfold scanFields.
  rewrite fold_left_app. cbn [fold_left].
  pose proof (kvMatch_lowerKey _ _ _ Hkv) as Hlk.
  rewrite (scan_saves_pending (toLowerCase key)); try assumption.
  - unfold scanLine. now rewrite Hkv.
  - destruct Hlk as [_ Hlow]. now rewrite (stripHyphens_lower _ Hlow) in Hunk.
  - unfold scanLine. now rewrite Hkv.
Qed.

Lemma scanFields_meta_keys (start : Message) body :
  (forall k v, meta start !! k = Some v -> lowerKey k) ->
  forall k v, meta (scanFields start body) !! k = Some v -> lowerKey k.
Proof.
  intros H0.
  apply (scanFields_invariant
           (fun r => forall k v, meta r !! k = Some v -> lowerKey k));
    [assumption |].
  intros r k v Hr Hk k' v'.
  destruct (decide (k = k')) as [<- | Hne]; [now intros _ |].
  rewrite saveField_meta_other by assumption. apply Hr.
Qed.

(** C9, as the parser has it.  In an accepted message every key of [meta]
    is in lower case; and a [Key: value] line whose key, case-folded and
    stripped of hyphens and underscores, is not a known field puts its
    value (with the lines that continue it, trimmed) in [meta] under the
    lower-cased key, provided no later line has the same key.  The line
    [XFeature: v] yields the entry [xfeature]. *)
Theorem unknown_field_under_lowercase_key (raw : jsstring) (m : Message) :
  parse raw = Some m ->
  (forall k v, meta m !! k = Some v -> lowerKey k)
  /\ (forall pre line rest key value,
        fieldLines raw = pre ++ line :: rest ->
        kvMatch line = Some (key, value) ->
        includes knownFields (stripHyphens (toLowerCase key)) = false ->
        Forall (fun l => lineKey l <> Some (toLowerCase key)) rest ->
        meta m !! toLowerCase key
        = Some (trim (join_lines (value :: continuation rest)))).
Proof.
  intros H.
  apply parse_inv in H
    as (block & header & body & ty & rcpt & Hb & Hl & _ & _ & H).
  cbv zeta in H. destruct H as (_ & _ & _ & ->).
  destruct (parseDepth_frame (scanFields (emptyMessage ty rcpt raw) body))
    as (_ & _ & _ & _ & _ & _ & _ & _ & _ & ->).
  split.
  - apply scanFields_meta_keys. intros k v. cbn. now rewrite lookup_empty.
  - intros pre line rest key value Hlines.
    unfold fieldLines in Hlines. rewrite Hb, Hl in Hlines. cbn in Hlines.
    subst body. apply scanFields_field.
Qed.

Lemma unknown_field_under_lowercase_key_witness :
  lowerKey (js "xfeature")
  /\ meta xfeatureMessage !! js "xfeature" = Some (js "v").
Proof.
  destruct (unknown_field_under_lowercase_key xfeatureRequest xfeatureMessage
              parse_xfeatureRequest) as [Hkeys Hline].
  split.
  - apply (Hkeys (js "xfeature") (js "v")). by_compute.
  - apply (Hline [js "From: Lotbot"; js "RequestId: lotbot-abc123";
                  js "Task: Do something"]
                 (js "XFeature: v") [js "Depth: 1/5"]
                 (js "XFeature") (js "v")).
    + by_compute.
    + by_compute.
    + by_compute.
    + constructor; [| constructor]. vm_compute. discriminate.
Defined.

(** C9 fails as stated: the line [XFeature: v] leaves nothing under
    [XFeature]; the value is under [xfeature]. *)
Lemma unknown_field_not_under_original_key :
  (fun m => (meta m !! js "XFeature", meta m !! js "xfeature"))
    <$> parse xfeatureRequest
  = Some (None, Some (js "v")).
Proof. by_compute. Qed.

End UnknownFields.

(** * Round trip through the wire format *)

Section WireLemmas.

Lemma takeWhile_app_stop p a c b :
  forallb p a = true -> p c = false -> takeWhile p (a ++ c :: b) = a.
Proof.
  intros Ha Hc. induction a as [| x a IH]; cbn in *.
  - now rewrite Hc.
  - apply andb_true_iff in Ha as [-> Ha]. now rewrite IH.
Qed.

Lemma dropWhile_app_stop p a c b :
  forallb p a = true -> p c = false -> dropWhile p (a ++ c :: b) = c :: b.
Proof.
  intros Ha Hc. induction a as [| x a IH]; cbn in *.
  - now rewrite Hc.
  - apply andb_true_iff in Ha as [-> Ha]. now rewrite IH.
Qed.











(** *** Lines *)










End WireLemmas.

Section WireParse.

Import Parser.

(** *** Character classes *)


Lemma isLetter_spec c :
  isLetter c = true <-> (65 <= c <= 90 \/ 97 <= c <= 122)%N.
Proof. unfold isLetter. now rewrite orb_true_iff, !in_range_spec. Qed.

Lemma isWordChar_spec c :
  isWordChar c = true <->
  (65 <= c <= 90 \/ 97 <= c <= 122 \/ 48 <= c <= 57 \/ c = 95)%N.
Proof.
  unfold isWordChar, isDigit.
  rewrite !orb_true_iff, isLetter_spec, in_range_spec, N.eqb_eq. tauto.
Qed.







(** *** The fence *)

Lemma codeBlockMatch_at s body :
  codeBlockAt s = Some body -> codeBlockMatch s = Some body.
Proof. intros H. destruct s; cbn [codeBlockMatch]; now rewrite H. Qed.

Lemma starts_with_app pre s : starts_with pre (pre ++ s) = Some s.
Proof.
  induction pre as [| c pre IH]; [now destruct s |].
  cbn. now rewrite N.eqb_refl.
Qed.

Lemma codeBlockMatch_fenced body :
  body <> [] -> forallb notBacktick body = true ->
  codeBlockMatch (fence ++ body ++ fence) = Some body.
Proof.
  intros Hne Hall. apply codeBlockMatch_at. unfold codeBlockAt.
  rewrite starts_with_app.
  change (body ++ fence) with (body ++ 96%N :: [96%N; 96%N]).
  rewrite takeWhile_app_stop, dropWhile_app_stop by (assumption || reflexivity).
  destruct body; [easy | reflexivity].
Qed.

(** *** The header line *)



(** *** A field line *)




(** *** The whole text *)






End WireParse.

Section RoundTrip.

Import Parser.

(** *** What each label saves *)













(** *** Values that are fit for the wire *)












End RoundTrip.

Section RoundTripTheorem.

Import Parser.

(** *** What the constructors write *)

Ltac wire_text :=
  unfold wireText, Builder.headerLine, headerText, fieldText,
    Builder.optionalLine, optionalField, Builder.fence, fence, Builder.nl;
  repeat match goal with
         | |- context [truthy ?v] => destruct (truthy v)
         end;
  cbn [List.map join_lines fst snd app]; js_literals; flatten; reflexivity.

Lemma buildRequest_wire nanoid f text :
  Builder.buildRequest nanoid f = Builder.Returns text ->
  requestReady f
  /\ text =
     wireText REQUEST (Builder.str (Builder.to f))
       ([(js "From", Builder.str (Builder.from f));
         (js "RequestId",
          Builder.str
            (js_or (Builder.requestId f)
               (Some (Builder.generateRequestId nanoid
                        (Builder.str (Builder.from f))))));
         (js "Task", Builder.str (Builder.task f))]
        ++ optionalField (js "Context") (Builder.context f)
        ++ [(js "Depth", Builder.depthText (effectiveDepth f))]
        ++ optionalField (js "Callback") (Builder.callback f)
        ++ optionalField (js "Priority") (Builder.priority f)).
Proof.
  intros H.
  assert (Hready : requestReady f).
  { unfold Builder.buildRequest, Builder.validateRequired in H.
    unfold requestReady.
    destruct (truthy (Builder.to f)); [| discriminate].
    destruct (truthy (Builder.from f)); [| discriminate].
    destruct (truthy (Builder.task f)); [| discriminate]. now repeat split. }
  split; [assumption |].
  rewrite buildRequest_ready in H by assumption. cbv zeta in H.
  destruct (_ =? _)%Z; [discriminate |]. injection H as <-.
  set (id := js_or _ _). clearbody id.
  wire_text.
Qed.

Lemma buildHandoff_wire f text :
  Builder.buildHandoff f = Builder.Returns text ->
  handoffReady f
  /\ text =
     wireText HANDOFF (Builder.str (Builder.to f))
       ([(js "From", Builder.str (Builder.from f));
         (js "RequestId", Builder.str (Builder.requestId f));
         (js "Task", Builder.str (Builder.task f))]
        ++ optionalField (js "Context") (Builder.context f)
        ++ [(js "Depth", Builder.depthText (effectiveDepth f))]
        ++ optionalField (js "Callback") (Builder.callback f)
        ++ optionalField (js "Priority") (Builder.priority f)).
Proof.
  intros H.
  assert (Hready : handoffReady f).
  { unfold Builder.buildHandoff, Builder.validateRequired in H.
    unfold handoffReady.
    destruct (truthy (Builder.to f)); [| discriminate].
    destruct (truthy (Builder.from f)); [| discriminate].
    destruct (truthy (Builder.requestId f)); [| discriminate].
    destruct (truthy (Builder.task f)); [| discriminate]. now repeat split. }
  split; [assumption |].
  rewrite buildHandoff_ready in H by assumption. cbv zeta in H.
  destruct (_ =? _)%Z; [discriminate |]. injection H as <-.
  wire_text.
Qed.

Lemma buildClarify_wire f text :
  Builder.buildClarify f = Builder.Returns text ->
  clarifyReady f
  /\ text =
     wireText CLARIFY (Builder.str (Builder.to f))
       [(js "From", Builder.str (Builder.from f));
        (js "RequestId", Builder.str (Builder.requestId f));
        (js "Question", Builder.str (Builder.question f));
        (js "Depth", Builder.depthText (effectiveDepth f))].
Proof.
  intros H.
  assert (Hready : clarifyReady f).
  { unfold Builder.buildClarify, Builder.validateRequired in H.
    unfold clarifyReady.
    destruct (truthy (Builder.to f)); [| discriminate].
    destruct (truthy (Builder.from f)); [| discriminate].
    destruct (truthy (Builder.requestId f)); [| discriminate].
    destruct (truthy (Builder.question f)); [| discriminate].
    now repeat split. }
  split; [assumption |].
  rewrite buildClarify_ready in H by assumption. cbv zeta in H.
  destruct (_ =? _)%Z; [discriminate |]. injection H as <-.
  wire_text.
Qed.

Lemma buildResponse_wire f text :
  Builder.buildResponse f = Builder.Returns text ->
  responseReady f
  /\ text =
     wireText RESPONSE (Builder.str (Builder.to f))
       ([(js "From", Builder.str (Builder.from f));
         (js "RequestId", Builder.str (Builder.requestId f))]
        ++ optionalField (js "Status") (Builder.status f)
        ++ optionalField (js "Result") (Builder.result f)
        ++ optionalField (js "Context") (Builder.context f)
        ++ [(js "Depth", Builder.depthText (effectiveDepth f))]).
Proof.
  intros H.
  assert (Hready : responseReady f).
  { unfold Builder.buildResponse, Builder.validateRequired in H.
    unfold responseReady.
    destruct (truthy (Builder.to f)); [| discriminate].
    destruct (truthy (Builder.from f)); [| discriminate].
    destruct (truthy (Builder.requestId f)); [| discriminate].
    destruct (truthy (Builder.status f)); [now repeat split; left |].
    destruct (truthy (Builder.result f)); [now repeat split; right |].
    discriminate. }
  split; [assumption |].
  rewrite buildResponse_ready in H by assumption. injection H as <-.
  wire_text.
Qed.

Lemma buildBroadcast_wire nanoid f text :
  Builder.buildBroadcast nanoid f = Builder.Returns text ->
  broadcastReady f
  /\ text =
     wireText BROADCAST (js "all")
       ([(js "From", Builder.str (Builder.from f));
         (js "RequestId",
          Builder.str
            (js_or (Builder.requestId f)
               (Some (Builder.generateRequestId nanoid
                        (Builder.str (Builder.from f))))));
         (js "Message", Builder.str (Builder.message f))]
        ++ optionalField (js "Context") (Builder.context f)
        ++ [(js "Depth", Builder.depthText (effectiveDepth f))]).
Proof.
  intros H.
  assert (Hready : broadcastReady f).
  { unfold Builder.buildBroadcast, Builder.validateRequired in H.
    unfold broadcastReady.
    destruct (truthy (Builder.from f)); [| discriminate].
    destruct (truthy (Builder.message f)); [| discriminate].
    now repeat split. }
  split; [assumption |].
  rewrite buildBroadcast_ready in H by assumption. injection H as <-.
  set (id := js_or _ _). clearbody id.
  wire_text.
Qed.

(** *** What the parser reads back *)













End RoundTripTheorem.

Section RoundTripClaim.

Import Parser.


End RoundTripClaim.



(** * Further properties of the builder *)

Section BuilderMoreProperties.

Import Builder.

(** [validateRequired] accepts exactly the mappings whose listed fields
    are all truthy; otherwise its error names the first field, in the
    order of the list, that is missing. *)
Theorem validateRequired_first_missing
    (fields : list (jsstring * option jsstring)) (messageType : jsstring) :
  match validateRequired fields messageType with
  | None => Forall (fun kv => truthy kv.2 = true) fields
  | Some e =>
      exists pre key value post,
        fields = pre ++ (key, value) :: post
        /\ Forall (fun kv => truthy kv.2 = true) pre
        /\ truthy value = false
        /\ e = messageType ++ js " requires field: " ++ key
  end.
Proof.
  induction fields as [| [key value] fields IH]; cbn [validateRequired].
  - constructor.
  - destruct (truthy value) eqn:E.
    + destruct (validateRequired fields messageType) as [e |].
      * destruct IH as (pre & k & v & post & -> & Hpre & Hv & ->).
        exists ((key, value) :: pre), k, v, post.
        split_ands; try reflexivity; try assumption.
        now constructor.
      * now constructor.
    + exists [], key, value, fields. now split_ands.
Qed.

(** Each constructor returns a text exactly when its required fields are
    present and, for REQUEST, HANDOFF and CLARIFY, the depth is not at its
    limit. *)
Theorem builders_return_iff (nanoid : jsstring) (f : Fields) :
  let d := effectiveDepth f in
  (returns (buildRequest nanoid f)
   <-> requestReady f /\ current d <> max d)
  /\ (returns (buildHandoff f) <-> handoffReady f /\ current d <> max d)
  /\ (returns (buildClarify f) <-> clarifyReady f /\ current d <> max d)
  /\ (returns (buildResponse f) <-> responseReady f)
  /\ (returns (buildBroadcast nanoid f) <-> broadcastReady f).
Proof.
  intros d. split_ands; split.
  - intros [text H]. destruct (buildRequest_wire _ _ _ H) as [Hr _].
    split; [assumption |]. rewrite buildRequest_ready in H by assumption.
    cbv zeta in H. fold d in H.
    destruct (Z.eqb_spec (current d) (max d)); [discriminate | assumption].
  - intros [Hr Hd]. rewrite buildRequest_ready by assumption. cbv zeta.
    fold d. apply Z.eqb_neq in Hd. rewrite Hd. eexists. reflexivity.
  - intros [text H]. destruct (buildHandoff_wire _ _ H) as [Hr _].
    split; [assumption |]. rewrite buildHandoff_ready in H by assumption.
    cbv zeta in H. fold d in H.
    destruct (Z.eqb_spec (current d) (max d)); [discriminate | assumption].
  - intros [Hr Hd]. rewrite buildHandoff_ready by assumption. cbv zeta.
    fold d. apply Z.eqb_neq in Hd. rewrite Hd. eexists. reflexivity.
  - intros [text H]. destruct (buildClarify_wire _ _ H) as [Hr _].
    split; [assumption |]. rewrite buildClarify_ready in H by assumption.
    cbv zeta in H. fold d in H.
    destruct (Z.eqb_spec (current d) (max d)); [discriminate | assumption].
  - intros [Hr Hd]. rewrite buildClarify_ready by assumption. cbv zeta.
    fold d. apply Z.eqb_neq in Hd. rewrite Hd. eexists. reflexivity.
  - intros [text H]. now destruct (buildResponse_wire _ _ H) as [Hr _].
  - intros Hr. rewrite buildResponse_ready by assumption. eexists.
    reflexivity.
  - intros [text H]. now destruct (buildBroadcast_wire _ _ _ H) as [Hr _].
  - intros Hr. rewrite buildBroadcast_ready by assumption. eexists.
    reflexivity.
Qed.

(** Every error a constructor throws is one of three: a required field
    that is missing, named in the message (the first missing one in the
    order to, from, requestId, then the payload); for a RESPONSE, neither
    status nor result; or the depth at its limit. *)
Theorem builder_errors (nanoid : jsstring) (f : Fields) (e : jsstring) :
  let d := effectiveDepth f in
  (buildRequest nanoid f = Throws e ->
     (truthy (to f) = false /\ Throws e = missingField "REQUEST" "to")
     \/ (truthy (to f) = true /\ truthy (from f) = false
         /\ Throws e = missingField "REQUEST" "from")
     \/ (truthy (to f) = true /\ truthy (from f) = true
         /\ truthy (task f) = false
         /\ Throws e = missingField "REQUEST" "task")
     \/ (requestReady f /\ current d = max d
         /\ Throws e = depthLimitError d "REQUEST"))
  /\ (buildHandoff f = Throws e ->
     (truthy (to f) = false /\ Throws e = missingField "HANDOFF" "to")
     \/ (truthy (to f) = true /\ truthy (from f) = false
         /\ Throws e = missingField "HANDOFF" "from")
     \/ (truthy (to f) = true /\ truthy (from f) = true
         /\ truthy (requestId f) = false
         /\ Throws e = missingField "HANDOFF" "requestId")
     \/ (truthy (to f) = true /\ truthy (from f) = true
         /\ truthy (requestId f) = true /\ truthy (task f) = false
         /\ Throws e = missingField "HANDOFF" "task")
     \/ (handoffReady f /\ current d = max d
         /\ Throws e = depthLimitError d "HANDOFF"))
  /\ (buildClarify f = Throws e ->
     (truthy (to f) = false /\ Throws e = missingField "CLARIFY" "to")
     \/ (truthy (to f) = true /\ truthy (from f) = false
         /\ Throws e = missingField "CLARIFY" "from")
     \/ (truthy (to f) = true /\ truthy (from f) = true
         /\ truthy (requestId f) = false
         /\ Throws e = missingField "CLARIFY" "requestId")
     \/ (truthy (to f) = true /\ truthy (from f) = true
         /\ truthy (requestId f) = true /\ truthy (question f) = false
         /\ Throws e = missingField "CLARIFY" "question")
     \/ (clarifyReady f /\ current d = max d
         /\ Throws e = depthLimitError d "CLARIFY"))
  /\ (buildResponse f = Throws e ->
     (truthy (to f) = false /\ Throws e = missingField "RESPONSE" "to")
     \/ (truthy (to f) = true /\ truthy (from f) = false
         /\ Throws e = missingField "RESPONSE" "from")
     \/ (truthy (to f) = true /\ truthy (from f) = true
         /\ truthy (requestId f) = false
         /\ Throws e = missingField "RESPONSE" "requestId")
     \/ (truthy (to f) = true /\ truthy (from f) = true
         /\ truthy (requestId f) = true
         /\ truthy (status f) = false /\ truthy (result f) = false
         /\ e = js "RESPONSE requires either status or result"))
  /\ (buildBroadcast nanoid f = Throws e ->
     (truthy (from f) = false /\ Throws e = missingField "BROADCAST" "from")
     \/ (truthy (from f) = true /\ truthy (message f) = false
         /\ Throws e = missingField "BROADCAST" "message")).
Proof.
  intros d. split_ands; intros H.
  - unfold buildRequest, validateRequired in H.
    destruct (truthy (to f)) eqn:E1;
      [| left; split; [reflexivity | now injection H as <-]].
    destruct (truthy (from f)) eqn:E2;
      [| right; left; split_ands; try reflexivity; now injection H as <-].
    destruct (truthy (task f)) eqn:E3;
      [| right; right; left; split_ands; try reflexivity;
         now injection H as <-].
    right; right; right. cbv zeta in H. fold (effectiveDepth f) in H.
    fold d in H.
    destruct (Z.eqb_spec (current d) (max d)); [| discriminate].
    split_ands; try assumption; try (now repeat split).
    etransitivity; [symmetry; exact H |].
    symmetry. apply depthLimitError_message.
  - unfold buildHandoff, validateRequired in H.
    destruct (truthy (to f)) eqn:E1;
      [| left; split; [reflexivity | now injection H as <-]].
    destruct (truthy (from f)) eqn:E2;
      [| right; left; split_ands; try reflexivity; now injection H as <-].
    destruct (truthy (requestId f)) eqn:E3;
      [| right; right; left; split_ands; try reflexivity;
         now injection H as <-].
    destruct (truthy (task f)) eqn:E4;
      [| right; right; right; left; split_ands; try reflexivity;
         now injection H as <-].
    right; right; right; right. cbv zeta in H.
    fold (effectiveDepth f) in H. fold d in H.
    destruct (Z.eqb_spec (current d) (max d)); [| discriminate].
    split_ands; try assumption; try (now repeat split).
    etransitivity; [symmetry; exact H |].
    symmetry. apply depthLimitError_message.
  - unfold buildClarify, validateRequired in H.
    destruct (truthy (to f)) eqn:E1;
      [| left; split; [reflexivity | now injection H as <-]].
    destruct (truthy (from f)) eqn:E2;
      [| right; left; split_ands; try reflexivity; now injection H as <-].
    destruct (truthy (requestId f)) eqn:E3;
      [| right; right; left; split_ands; try reflexivity;
         now injection H as <-].
    destruct (truthy (question f)) eqn:E4;
      [| right; right; right; left; split_ands; try reflexivity;
         now injection H as <-].
    right; right; right; right. cbv zeta in H.
    fold (effectiveDepth f) in H. fold d in H.
    destruct (Z.eqb_spec (current d) (max d)); [| discriminate].
    split_ands; try assumption; try (now repeat split).
    etransitivity; [symmetry; exact H |].
    symmetry. apply depthLimitError_message.
  - unfold buildResponse, validateRequired in H.
    destruct (truthy (to f)) eqn:E1;
      [| left; split; [reflexivity | now injection H as <-]].
    destruct (truthy (from f)) eqn:E2;
      [| right; left; split_ands; try reflexivity; now injection H as <-].
    destruct (truthy (requestId f)) eqn:E3;
      [| right; right; left; split_ands; try reflexivity;
         now injection H as <-].
    right; right; right.
    destruct (truthy (status f)) eqn:E4; [discriminate |].
    destruct (truthy (result f)) eqn:E5; [discriminate |].
    cbn in H. injection H as <-. now split_ands.
  - unfold buildBroadcast, validateRequired in H.
    destruct (truthy (from f)) eqn:E1;
      [| left; split; [reflexivity | now injection H as <-]].
    destruct (truthy (message f)) eqn:E2;
      [| right; split_ands; try reflexivity; now injection H as <-].
    discriminate.
Qed.







End BuilderMoreProperties.


(** * Further properties of the parser *)

Section ParserMoreProperties.

Import Parser.

(** *** The fence and the header, read backwards *)

Lemma starts_with_inv pre s rest :
  starts_with pre s = Some rest -> s = pre ++ rest.
Proof.
  revert s. induction pre as [| a pre IH]; intros s H.
  - destruct s; now injection H as <-.
  - destruct s as [| b s]; [discriminate |]. cbn in H.
    destruct (N.eqb_spec a b) as [-> | Hne]; [| discriminate].
    cbn. f_equal. now apply IH.
Qed.

Lemma codeBlockAt_inv s body :
  codeBlockAt s = Some body ->
  exists post,
    s = fence ++ body ++ fence ++ post
    /\ body <> [] /\ forallb notBacktick body = true.
Proof.
  unfold codeBlockAt. intros H.
  destruct (starts_with fence s) as [rest |] eqn:E1; [| discriminate].
  apply starts_with_inv in E1.
  pose proof (takeWhile_all notBacktick rest) as Hall.
  pose proof (takeWhile_dropWhile notBacktick rest) as Hsplit.
  destruct (takeWhile notBacktick rest) as [| c b] eqn:E2; [discriminate |].
  destruct (starts_with fence (dropWhile notBacktick rest)) as [post |] eqn:E3;
    [| discriminate].
  apply starts_with_inv in E3. injection H as <-.
  exists post. split; [| split; [discriminate | assumption]].
  now rewrite E1, <- Hsplit, E3.
Qed.

Lemma codeBlockMatch_inv s body :
  codeBlockMatch s = Some body ->
  exists pre post,
    s = pre ++ fence ++ body ++ fence ++ post
    /\ body <> [] /\ forallb notBacktick body = true.
Proof.
  induction s as [| c s IH]; intros H.
  - cbn in H. discriminate.
  - cbn [codeBlockMatch] in H.
    destruct (codeBlockAt (c :: s)) as [b |] eqn:E.
    + injection H as ->. apply codeBlockAt_inv in E as (post & -> & H1 & H2).
      now exists [], post.
    + destruct (IH H) as (pre & post & -> & H1 & H2).
      now exists (c :: pre), post.
Qed.

Lemma unsnoc_inv s i l : unsnoc s = Some (i, l) -> s = i ++ [l].
Proof.
  revert i. induction s as [| c s IH]; intros i H; [discriminate |].
  cbn [unsnoc] in H. destruct s as [| c' s].
  - now injection H as <- <-.
  - destruct (unsnoc (c' :: s)) as [[i' l'] |]; [| discriminate].
    injection H as <- <-. cbn. f_equal. now apply IH.
Qed.

Lemma headerMatch_inv line ty rcpt :
  headerMatch line = Some (ty, rcpt) ->
  headerShape line ty rcpt
  /\ ty <> [] /\ forallb isWordChar ty = true
  /\ rcpt <> [] /\ forallb isNonSpace rcpt = true.
Proof.
  unfold headerMatch. intros H.
  destruct (expect 91 line) as [r |] eqn:E0; [| discriminate].
  apply expect_Some in E0.
  pose proof (takeWhile_all isWordChar r) as Hword.
  pose proof (takeWhile_dropWhile isWordChar r) as Hr.
  destruct (takeWhile isWordChar r) as [| t0 t] eqn:Et; [discriminate |].
  set (r0 := dropWhile isWordChar r) in *.
  pose proof (takeWhile_all isWhiteSpace r0) as Hws1.
  pose proof (takeWhile_dropWhile isWhiteSpace r0) as Hr0.
  destruct (expect 8594 (dropWhile isWhiteSpace r0)) as [r1 |] eqn:E1;
    [| discriminate].
  apply expect_Some in E1.
  pose proof (takeWhile_all isWhiteSpace r1) as Hws2.
  pose proof (takeWhile_dropWhile isWhiteSpace r1) as Hr1.
  destruct (expect 64 (dropWhile isWhiteSpace r1)) as [r2 |] eqn:E2;
    [| discriminate].
  apply expect_Some in E2.
  destruct (unsnoc r2) as [[[| c rc] l] |] eqn:E3; try discriminate.
  apply unsnoc_inv in E3.
  destruct (N.eqb_spec l 93) as [-> | Hne]; [| discriminate].
  cbn [andb] in H.
  destruct (forallb isNonSpace (c :: rc)) eqn:Ens; [| discriminate].
  injection H as <- <-.
  split; [| now repeat split].
  exists (takeWhile isWhiteSpace r0), (takeWhile isWhiteSpace r1).
  split; [| now split].
  rewrite E0. f_equal.
  etransitivity; [symmetry; exact Hr |]. f_equal.
  etransitivity; [symmetry; exact Hr0 |]. f_equal.
  rewrite E1. f_equal.
  etransitivity; [symmetry; exact Hr1 |]. f_equal.
  now rewrite E2, E3.
Qed.

(** A message is returned only for a text that holds a fenced block (three
    backticks, a non-empty run without backtick, three backticks); the
    message keeps the whole text in [raw], and its recipient, taken from a
    first line of the shape of the header, is not empty and holds no white
    space. *)
Theorem parse_fence_and_header (raw : jsstring) (m : Message) :
  parse raw = Some m ->
  Parser.raw m = raw
  /\ (exists pre block post,
        raw = pre ++ fence ++ block ++ fence ++ post
        /\ block <> [] /\ forallb notBacktick block = true
        /\ exists header, hd_error (split_lines (trim block)) = Some header
                          /\ headerShape header (type m) (to m))
  /\ to m <> [] /\ forallb isNonSpace (to m) = true.
Proof.
  intros H.
  apply parse_inv in H
    as (block & header & body & ty & rcpt & Hb & Hl & Hh & _ & H).
  cbv zeta in H. destruct H as (_ & _ & _ & ->).
  destruct (parseDepth_frame (scanFields (emptyMessage ty rcpt raw) body))
    as (-> & -> & _).
  destruct (scanFields_frame (emptyMessage ty rcpt raw) body)
    as (-> & -> & Hraw).
  cbn [type to emptyMessage].
  apply headerMatch_inv in Hh as (Hshape & _ & _ & Hne & Hns).
  apply codeBlockMatch_inv in Hb as (pre & post & -> & Hbne & Hbt).
  split_ands; try assumption.
  - unfold parseDepth.
    destruct (depth _) as [| [| c t] |]; try exact Hraw.
    destruct (depthMatch _) as [[cur mx] |]; exact Hraw.
  - exists pre, block, post. split_ands; try easy.
    exists header. split; [now rewrite Hl | assumption].
Qed.

(** *** Enumerated fields *)

Lemma saveField_priority r k v :
  priority (saveField r k v) = priority r
  \/ priority (saveField r k v) = None
  \/ (priority (saveField r k v) = Some (trim v)
      /\ includes VALID_PRIORITIES (trim v) = true).
Proof.
  unfold saveField, setProp. cbv zeta.
  destruct (includes knownFields _); [| left; reflexivity].
  destruct (str_eqb _ k_priority) eqn:Es; cbn [andb];
    destruct (includes VALID_PRIORITIES (trim v)) eqn:Ev; cbn [negb];
    split_ifs;
    first [ left; reflexivity
          | right; left; reflexivity
          | right; right; split; reflexivity ].
Qed.

Lemma scanFields_priority start body :
  priorityValid (priority start) ->
  priorityValid (priority (scanFields start body)).
Proof.
  intros H0.
  apply (scanFields_invariant (fun r => priorityValid (priority r)));
    [assumption |].
  intros r k v H _.
  destruct (saveField_priority r k v) as [-> | [-> | [-> Hin]]].
  - assumption.
  - now left.
  - right. eexists. split; [reflexivity |]. now apply includes_In.
Qed.

(** In an accepted message [status] is [null] or one of done, partial,
    failed, and [priority] is [null] or one of low, normal, high: a value
    outside the enumeration is dropped, and the message is still
    accepted or rejected on its other fields. *)
Theorem parse_enumerations (raw : jsstring) (m : Message) :
  parse raw = Some m ->
  statusValid (status m) /\ priorityValid (priority m).
Proof.
  intros H.
  apply parse_inv in H
    as (block & header & body & ty & rcpt & _ & _ & _ & _ & H).
  cbv zeta in H. destruct H as (_ & _ & _ & ->).
  set (r := scanFields (emptyMessage ty rcpt raw) body).
  split.
  - destruct (parseDepth_frame r) as (_ & _ & _ & _ & _ & _ & -> & _).
    apply scanFields_status. now left.
  - replace (priority (parseDepth r)) with (priority r).
    + apply scanFields_priority. now left.
    + unfold parseDepth. destruct (depth r) as [| [| c t] |]; try reflexivity.
      now destruct (depthMatch (c :: t)) as [[cur mx] |].
Qed.

(** *** The keys of [meta] *)

(** No known field ever lands in [meta]: every key of the [meta] of an
    accepted message is outside the known-field set. *)
Theorem parse_meta_unknown_only (raw : jsstring) (m : Message) :
  parse raw = Some m ->
  forall k v, meta m !! k = Some v -> includes knownFields k = false.
Proof.
  intros H.
  apply parse_inv in H
    as (block & header & body & ty & rcpt & _ & _ & _ & _ & H).
  cbv zeta in H. destruct H as (_ & _ & _ & ->).
  destruct (parseDepth_frame (scanFields (emptyMessage ty rcpt raw) body))
    as (_ & _ & _ & _ & _ & _ & _ & _ & _ & ->).
  apply (scanFields_invariant
           (fun r => forall k v,
                meta r !! k = Some v -> includes knownFields k = false)).
  - intros k v. cbn. now rewrite lookup_empty.
  - intros r k v Hr Hk k' v'.
    destruct (includes knownFields (stripHyphens (toLowerCase k))) eqn:E.
    + rewrite saveField_meta_known by assumption. apply Hr.
    + rewrite saveField_meta_unknown by assumption.
      destruct (decide (k = k')) as [<- | Hne].
      * intros _. now rewrite normalized_lowerKey in E.
      * rewrite lookup_insert_ne by assumption. apply Hr.
Qed.

End ParserMoreProperties.

Lemma parse_fence_and_header_witness :
  Parser.raw validRequestMessage = Parser.validRequest
  /\ Parser.to validRequestMessage <> [].
Proof.
  destruct (parse_fence_and_header Parser.validRequest validRequestMessage
              parse_validRequest) as (H1 & _ & H2 & _).
  split; assumption.
Defined.

Lemma parse_enumerations_witness :
  statusValid (Parser.status partialResponseMessage)
  /\ priorityValid (Parser.priority partialResponseMessage).
Proof.
  exact (parse_enumerations partialResponse partialResponseMessage
           parse_partialResponse).
Defined.

Lemma parse_meta_unknown_only_witness :
  includes Parser.knownFields (js "xfeature") = false.
Proof.
  apply (parse_meta_unknown_only xfeatureRequest xfeatureMessage
           parse_xfeatureRequest (js "xfeature") (js "v")).
  by_compute.
Defined.

(** * Known fields, and the text around the block *)

Section KnownFields.

Import Parser.

Lemma saveField_plain_same lk r v :
  In lk plainFields -> plainField lk (saveField r lk v) = Some (trim v).
Proof.
  intros H. cbv [plainFields In] in H.
  decompose [or] H; try contradiction; subst lk;
    unfold plainField; eval_tests; unfold saveField, setProp; cbv zeta;
    eval_tests; reflexivity.
Qed.

Lemma saveField_plain_other lk r k v :
  In lk plainFields -> lowerKey k -> k <> lk ->
  plainField lk (saveField r k v) = plainField lk r.
Proof.
  intros H Hk Hne. cbv [plainFields In] in H.
  decompose [or] H; try contradiction; subst lk;
    unfold plainField; eval_tests; unfold saveField, setProp; cbv zeta;
    rewrite (normalized_lowerKey k Hk);
    split_ifs; try reflexivity; exfalso;
    match goal with
    | E : str_eqb k ?x = true, Hn : k <> ?x |- _ =>
        apply str_eqb_eq in E; exact (Hn E)
    end.
Qed.

Lemma plainField_parseDepth lk r :
  plainField lk (parseDepth r) = plainField lk r.
Proof.
  unfold parseDepth. destruct (depth r) as [| [| c t] |]; try reflexivity.
  destruct (depthMatch (c :: t)) as [[cur mx] |]; reflexivity.
Qed.

Section Slot.

(** A place in the message that only saves under [lk] write to. *)
Variable get : Message -> option jsstring.
Variable lk : jsstring.
Hypothesis lk_lower : lowerKey lk.
Hypothesis get_same : forall r v, get (saveField r lk v) = Some (trim v).
Hypothesis get_other :
  forall r k v, lowerKey k -> k <> lk -> get (saveField r k v) = get r.

Lemma scanLine_lowerKey s l :
  (forall k, currentKey s = Some k -> lowerKey k) ->
  forall k, currentKey (scanLine s l) = Some k -> lowerKey k.
Proof.
  intros Hs k. unfold scanLine.
  destruct (kvMatch l) as [[key value] |] eqn:E; cbn [currentKey].
  - intros [= <-]. eapply kvMatch_lowerKey, E.
  - destruct (truthy (currentKey s)); apply Hs.
Qed.

Lemma flush_keeps_slot s :
  (forall k, currentKey s = Some k -> lowerKey k) ->
  currentKey s <> Some lk ->
  get (flush s) = get (acc s).
Proof.
  intros Hs Hk. unfold flush.
  destruct (currentKey s) as [[| c k] |] eqn:E; try reflexivity.
  apply get_other; [now apply Hs | congruence].
Qed.

Lemma scan_keeps_slot (rest : list jsstring) (s : Scan) :
  (forall k, currentKey s = Some k -> lowerKey k) ->
  currentKey s <> Some lk ->
  Forall (fun l => lineKey l <> Some lk) rest ->
  get (flush (fold_left scanLine rest s)) = get (acc s).
Proof.
  intros Hs Hk Hrest. revert s Hs Hk.
  induction Hrest as [| l rest Hl Hrest IH]; intros s Hs Hk; cbn [fold_left].
  - now apply flush_keeps_slot.
  - rewrite IH.
    + unfold scanLine. unfold lineKey in Hl.
      destruct (kvMatch l) as [[key value] |]; cbn [acc].
      * now apply flush_keeps_slot.
      * destruct (truthy (currentKey s)); reflexivity.
    + now apply scanLine_lowerKey.
    + unfold scanLine. unfold lineKey in Hl.
      destruct (kvMatch l) as [[key value] |]; cbn [currentKey].
      * assumption.
      * destruct (truthy (currentKey s)); assumption.
Qed.

Lemma scan_saves_slot (rest : list jsstring) (s : Scan) :
  currentKey s = Some lk ->
  Forall (fun l => lineKey l <> Some lk) rest ->
  get (flush (fold_left scanLine rest s))
  = Some (trim (join_lines (currentValue s ++ continuation rest))).
Proof.
  intros Hk Hrest. revert s Hk.
  assert (Hflush : forall s, currentKey s = Some lk ->
                             get (flush s)
                             = Some (trim (join_lines (currentValue s)))).
  { intros s Hk. unfold flush. rewrite Hk.
    destruct lk as [| c k]; [now destruct lk_lower |]. apply get_same. }
  induction Hrest as [| l rest Hl Hrest IH]; intros s Hk;
    cbn [fold_left continuation].
  - rewrite app_nil_r. now apply Hflush.
  - unfold lineKey in Hl.
    destruct (kvMatch l) as [[key value] |] eqn:E.
    + rewrite app_nil_r, scan_keeps_slot; [| | | assumption].
      * unfold scanLine. rewrite E. cbn [acc]. now apply Hflush.
      * apply scanLine_lowerKey. intros k. rewrite Hk. now intros [= <-].
      * unfold scanLine. rewrite E. cbn [currentKey]. assumption.
    + rewrite IH.
      * unfold scanLine. rewrite E, Hk.
        destruct lk as [| c k]; [now destruct lk_lower |].
        cbn [truthy currentValue]. now rewrite <- app_assoc.
      * unfold scanLine. rewrite E, Hk.
        destruct lk as [| c k]; [now destruct lk_lower | reflexivity].
Qed.

Lemma scanFields_slot (start : Message) pre line rest key value :
  kvMatch line = Some (key, value) ->
  toLowerCase key = lk ->
  Forall (fun l => lineKey l <> Some lk) rest ->
  get (scanFields start (pre ++ line :: rest))
  = Some (trim (join_lines (value :: continuation rest))).
Proof.
  intros Hkv Hkey Hrest. unfold scanFields.
  rewrite fold_left_app. cbn [fold_left].
  rewrite scan_saves_slot; try assumption.
  - unfold scanLine. now rewrite Hkv.
  - unfold scanLine. rewrite Hkv. cbn [currentKey]. now rewrite Hkey.
Qed.

End Slot.

(** A line [Key: value] whose key, in any mix of cases, names one of from,
    requestid, task, result, context, callback, question, message sets that
    property of the accepted message to the value joined with the lines
    that continue it (up to the next [Key: value] line) and trimmed,
    provided no later line has the same key: the last line of a key wins,
    and the lines before it do not matter. *)
Theorem known_field_value (raw : jsstring) (m : Message) :
  parse raw = Some m ->
  forall pre line rest key value,
    fieldLines raw = pre ++ line :: rest ->
    kvMatch line = Some (key, value) ->
    In (toLowerCase key) plainFields ->
    Forall (fun l => lineKey l <> Some (toLowerCase key)) rest ->
    plainField (toLowerCase key) m
    = Some (trim (join_lines (value :: continuation rest))).
Proof.
  intros H pre line rest key value Hlines Hkv Hin Hrest.
  apply parse_inv in H
    as (block & header & body & ty & rcpt & Hb & Hl & _ & _ & H).
  cbv zeta in H. destruct H as (_ & _ & _ & ->).
  rewrite plainField_parseDepth.
  unfold fieldLines in Hlines. rewrite Hb, Hl in Hlines. cbn in Hlines.
  subst body.
  apply (scanFields_slot (plainField (toLowerCase key)) (toLowerCase key))
    with (key := key); try assumption; try reflexivity.
  - eapply kvMatch_lowerKey, Hkv.
  - intros r v. now apply saveField_plain_same.
  - intros r k v. now apply saveField_plain_other.
Qed.

(** A field is set only by a line whose key is made of letters alone: a
    property among from, requestid, task, result, context, callback,
    question, message that no [Key: value] line names is [null] in the
    accepted message, and a line with anything but letters before its
    colon (a hyphen, an underscore, a digit, a space) is no [Key: value]
    line at all. *)
Theorem field_needs_letter_key (raw : jsstring) (m : Message) :
  parse raw = Some m ->
  (forall lk,
      In lk plainFields ->
      Forall (fun l => lineKey l <> Some lk) (fieldLines raw) ->
      plainField lk m = None)
  /\ (forall pre c rest,
        forallb isLetter pre = true -> isLetter c = false -> c <> 58%N ->
        lineKey (pre ++ c :: rest) = None).
Proof.
  intros H. split.
  - intros lk Hin Hlines.
    apply parse_inv in H
      as (block & header & body & ty & rcpt & Hb & Hl & _ & _ & H).
    cbv zeta in H. destruct H as (_ & _ & _ & ->).
    rewrite plainField_parseDepth.
    unfold fieldLines in Hlines. rewrite Hb, Hl in Hlines. cbn in Hlines.
    unfold scanFields.
    rewrite (scan_keeps_slot (plainField lk) lk); try assumption.
    + cbn [acc]. unfold plainField. split_ifs; reflexivity.
    + intros r k v. now apply saveField_plain_other.
    + discriminate.
    + discriminate.
  - intros pre c rest Hpre Hc Hne. unfold lineKey, kvMatch.
    rewrite takeWhile_app_stop, dropWhile_app_stop by assumption.
    destruct pre; [reflexivity |]. cbn [expect].
    destruct (N.eqb_spec c 58); [contradiction | reflexivity].
Qed.

(** *** The text around the block *)

Lemma saveField_withRaw x r k v :
  saveField (withRaw x r) k v = withRaw x (saveField r k v).
Proof.
  unfold saveField, setProp. cbv zeta. split_ifs; reflexivity.
Qed.

Lemma flush_withRaw x s :
  flush {| acc := withRaw x (acc s); currentKey := currentKey s;
           currentValue := currentValue s |}
  = withRaw x (flush s).
Proof.
  unfold flush. cbn [acc currentKey currentValue].
  destruct (currentKey s) as [[| c k] |]; try reflexivity.
  apply saveField_withRaw.
Qed.

Lemma scanLine_withRaw x s l :
  scanLine {| acc := withRaw x (acc s); currentKey := currentKey s;
              currentValue := currentValue s |} l
  = {| acc := withRaw x (acc (scanLine s l));
       currentKey := currentKey (scanLine s l);
       currentValue := currentValue (scanLine s l) |}.
Proof.
  unfold scanLine.
  destruct (kvMatch l) as [[key value] |].
  - rewrite flush_withRaw. reflexivity.
  - cbn [currentKey]. destruct (truthy (currentKey s)); reflexivity.
Qed.

Lemma scanFields_withRaw x start body :
  scanFields (withRaw x start) body = withRaw x (scanFields start body).
Proof.
  unfold scanFields.
  set (s := {| acc := start; currentKey := None; currentValue := [] |}).
  change {| acc := withRaw x start; currentKey := None; currentValue := [] |}
    with {| acc := withRaw x (acc s); currentKey := currentKey s;
            currentValue := currentValue s |}.
  clearbody s. revert s.
  induction body as [| l body IH]; intros s; cbn [fold_left].
  - apply flush_withRaw.
  - rewrite scanLine_withRaw. apply IH.
Qed.

Lemma parseDepth_withRaw x r :
  parseDepth (withRaw x r) = withRaw x (parseDepth r).
Proof.
  unfold parseDepth. cbn [depth withRaw].
  destruct (depth r) as [| [| c t] |]; try reflexivity.
  destruct (depthMatch (c :: t)) as [[cur mx] |]; reflexivity.
Qed.

(** Two texts with the same first fenced block give the same message, up
    to [raw]. *)
Lemma parse_same_block raw raw' block :
  raw <> [] -> raw' <> [] ->
  codeBlockMatch raw = Some block -> codeBlockMatch raw' = Some block ->
  parse raw' = withRaw raw' <$> parse raw.
Proof.
  intros Hne Hne' Hb Hb'. unfold parse.
  destruct raw as [| c0 raw0]; [contradiction |].
  destruct raw' as [| c1 raw1]; [contradiction |].
  rewrite Hb, Hb'.
  destruct (split_lines (trim block)) as [| header body]; [reflexivity |].
  destruct (headerMatch header) as [[ty rcpt] |]; [| reflexivity].
  destruct (negb (includes VALID_TYPES ty)); [reflexivity |].
  cbv zeta.
  change (emptyMessage ty rcpt (c1 :: raw1))
    with (withRaw (c1 :: raw1) (emptyMessage ty rcpt (c0 :: raw0))).
  rewrite scanFields_withRaw, parseDepth_withRaw.
  set (r := scanFields (emptyMessage ty rcpt (c0 :: raw0)) body).
  change (from (withRaw (c1 :: raw1) r)) with (from r).
  change (requestId (withRaw (c1 :: raw1) r)) with (requestId r).
  change (typeFieldsMissing ty (withRaw (c1 :: raw1) (parseDepth r)))
    with (typeFieldsMissing ty (parseDepth r)).
  destruct (negb (truthy (from r)) || negb (truthy (requestId r)));
    [reflexivity |].
  destruct (typeFieldsMissing ty (parseDepth r)); reflexivity.
Qed.

Lemma codeBlockMatch_skip pre s :
  forallb notBacktick pre = true ->
  codeBlockMatch (pre ++ s) = codeBlockMatch s.
Proof.
  induction pre as [| c pre IH]; [reflexivity |].
  cbn [forallb]. intros H. apply andb_true_iff in H as [Hc Hpre].
  cbn [app codeBlockMatch].
  replace (codeBlockAt (c :: pre ++ s)) with (@None jsstring);
    [now apply IH |].
  unfold codeBlockAt, fence. cbn [starts_with].
  unfold notBacktick in Hc. apply negb_true_iff in Hc.
  rewrite N.eqb_sym in Hc. now rewrite Hc.
Qed.

Lemma codeBlockMatch_fenced_then body post :
  body <> [] -> forallb notBacktick body = true ->
  codeBlockMatch (fence ++ body ++ fence ++ post) = Some body.
Proof.
  intros Hne Hall. apply codeBlockMatch_at. unfold codeBlockAt.
  rewrite starts_with_app.
  change (body ++ fence ++ post)
    with (body ++ 96%N :: ([96%N; 96%N] ++ post)).
  rewrite takeWhile_app_stop, dropWhile_app_stop by (assumption || reflexivity).
  destruct body; [easy | reflexivity].
Qed.

(** The parser reads the first fenced block and nothing else: text before
    the block (free of backticks) and any text after it change the
    result only in [raw], which holds the whole text; in particular the
    message is accepted with the surrounding text exactly when the bare
    block is. *)
Theorem parse_ignores_surrounding_text (pre body post : jsstring) :
  forallb notBacktick pre = true ->
  body <> [] -> forallb notBacktick body = true ->
  parse (pre ++ fence ++ body ++ fence ++ post)
  = withRaw (pre ++ fence ++ body ++ fence ++ post)
      <$> parse (fence ++ body ++ fence).
Proof.
  intros Hpre Hne Hall.
  apply parse_same_block with (block := body).
  - discriminate.
  - destruct pre; discriminate.
  - now apply codeBlockMatch_fenced.
  - rewrite codeBlockMatch_skip by assumption.
    now apply codeBlockMatch_fenced_then.
Qed.

End KnownFields.

Lemma known_field_value_witness :
  plainField Parser.k_task multilineMessage = Some multilineMessageTask.
Proof.
  assert (Hp : Parser.parse Parser.multilineRequest = Some multilineMessage)
    by by_compute.
  assert (Hl : fieldLines Parser.multilineRequest
               = [js "From: Lotbot"; js "RequestId: lotbot-abc123"]
                 ++ js "Task: Do these things:"
                 :: [js "1. Check version"; js "2. Report status";
                     js "Depth: 1/5"])
    by by_compute.
  assert (Hk : Parser.kvMatch (js "Task: Do these things:")
               = Some (js "Task", js "Do these things:"))
    by by_compute.
  assert (Hin : In (toLowerCase (js "Task")) plainFields).
  { right. right. left. by_compute. }
  assert (Hrest : Forall (fun l => lineKey l <> Some (toLowerCase (js "Task")))
                    [js "1. Check version"; js "2. Report status";
                     js "Depth: 1/5"]).
  { repeat constructor; vm_compute; discriminate. }
  etransitivity;
    [| etransitivity;
       [exact (known_field_value _ _ Hp _ _ _ _ _ Hl Hk Hin Hrest) |]].
  - by_compute.
  - by_compute.
Defined.

Lemma parse_ignores_surrounding_text_witness :
  Parser.parse (chatBefore ++ Parser.fence ++ chatBlock ++ Parser.fence
                ++ chatAfter)
  = withRaw (chatBefore ++ Parser.fence ++ chatBlock ++ Parser.fence
             ++ chatAfter)
      <$> Parser.parse (Parser.fence ++ chatBlock ++ Parser.fence).
Proof.
  apply parse_ignores_surrounding_text.
  - by_compute.
  - vm_compute. discriminate.
  - by_compute.
Defined.

Lemma field_needs_letter_key_witness :
  plainField Parser.k_callback validRequestMessage = None
  /\ lineKey (js "Request-Id: lotbot-abc123") = None.
Proof.
  destruct (field_needs_letter_key Parser.validRequest validRequestMessage
              parse_validRequest) as [Hnone Hkey].
  split.
  - apply Hnone.
    + do 5 right. left. reflexivity.
    + assert (Hl : fieldLines Parser.validRequest
                   = [js "From: Lotbot"; js "RequestId: lotbot-abc123";
                      js "Task: Check Mac Mini CLI version";
                      js "Context: Weekly audit"; js "Depth: 1/5";
                      js "Priority: normal"]) by by_compute.
      rewrite Hl. repeat constructor; vm_compute; discriminate.
  - apply (Hkey (js "Request") 45%N (js "Id: lotbot-abc123")).
    + reflexivity.
    + reflexivity.
    + discriminate.
Defined.

(** * The whole message, there and back *)

Section DepthRoundTrip.

Import Parser.

(** *** Numbers *)






(** *** The depth line *)




End DepthRoundTrip.


Section WholeMessage.

Import Parser.

(** *** The fields of each constructor, read back *)








End WholeMessage.


(** * Further properties of the state store *)

Section Queries.

Import StateStore.

Lemma after_bind {A B} (c : M A) (k : A -> M B) (w : World) :
  after (bind c k) w = after (k (answer c w)) (after c w).
Proof. unfold after, answer, bind. now destruct (c w). Qed.

Lemma answer_bind {A B} (c : M A) (k : A -> M B) (w : World) :
  answer (bind c k) w = answer (k (answer c w)) (after c w).
Proof. unfold after, answer, bind. now destruct (c w). Qed.





End Queries.

Section StoreCalls.

Import StateStore.

Variable clock : nat -> Z.

(** *** What a parsed message brings *)


(** *** What each call does to one record *)

(** The record [track] writes, told apart by whether the conversation was
    known. *)
Lemma track_record (m : Parser.Message) (w : World) :
  let key := keyOf (Parser.requestId m) in
  let now := clock (reads w) in
  exists c',
    disk (after (track clock m) w) = <[key := c']> (disk w)
    /\ answer (track clock m) w = Some c'
    /\ updatedAt c' = now
    /\ lastType c' = Some (Parser.type m)
    /\ match disk w !! key with
       | Some conv =>
           extends conv c'
           /\ history c' = history conv ++ [trackedEntry now m]
           /\ status c' =
                if str_eqb (Parser.type m) Parser.RESPONSE
                then or_text (Parser.status m) s_done
                else if str_eqb (Parser.type m) Parser.CLARIFY
                     then s_clarifying else status conv
       | None =>
           type c' = Parser.type m /\ to c' = Parser.to m
           /\ from c' = Parser.from m
           /\ createdAt c' = now
           /\ history c' = [trackedEntry now m]
           /\ depth c' =
                match Parser.depth m with
                | Parser.DepthPair current _ => Some current
                | Parser.DepthText (_ :: _) => None
                | _ => Some 1%N
                end
           /\ status c' =
                if str_eqb (Parser.type m) Parser.RESPONSE
                then or_text (Parser.status m) s_done
                else s_open
       end.
Proof.
  intros key now. unfold after, answer, track, bind, loadState, dateNow,
    saveState, ret. cbn. fold key.
  destruct (disk w !! key) as [conv |] eqn:E;
    rewrite alter_insert_eq, lookup_insert_eq;
    eexists; (split; [reflexivity |]); (split; [reflexivity |]);
    cbn; split_ands; try reflexivity.
  unfold extends. cbn. split_ands; try reflexivity. now eexists.
Qed.

(** The sweep, record by record. *)
Lemma sweep_effect (w : World) :
  let now := clock (reads w) in
  let ids := answer (checkTimeouts clock) w in
  let w' := after (checkTimeouts clock) w in
  (forall id, id ∈ ids
              <-> exists c, disk w !! id = Some c /\ stalled now c = true)
  /\ (forall id c, disk w !! id = Some c -> stalled now c = true ->
        exists reason t1 t2,
          disk w' !! id = Some (markTimedOut c reason t1 t2))
  /\ (forall id c, disk w !! id = Some c -> stalled now c = false ->
        disk w' !! id = Some c)
  /\ (forall id, disk w !! id = None -> disk w' !! id = None).
Proof.
  intros now ids w'.
  set (w1 := {| disk := disk w; reads := S (reads w) |}).
  destruct (checkTimeouts_loop clock now (map_to_list (disk w)) [] w1)
    as (ids' & w'' & Hf & Hids & Ht & Hk & Ho).
  { apply NoDup_fst_map_to_list. }
  { intros id c. apply elem_of_map_to_list. }
  assert (Hrun : checkTimeouts clock w = (ids', w'')).
  { unfold checkTimeouts, bind, loadState, dateNow. cbn. exact Hf. }
  subst ids w'. unfold answer, after. rewrite Hrun. cbn [fst snd].
  cbn [app] in Hids. split_ands.
  - intros id. rewrite Hids, list_elem_of_fmap. split.
    + intros ([id' c] & -> & H). apply list_elem_of_In, filter_In in H as [H Hs].
      apply list_elem_of_In, elem_of_map_to_list in H. now exists c.
    + intros (c & Hc & Hs). exists (id, c). split; [reflexivity |].
      apply list_elem_of_In, filter_In. split; [| assumption].
      now apply list_elem_of_In, elem_of_map_to_list.
  - intros id c Hc. apply Ht. now apply elem_of_map_to_list.
  - intros id c Hc. apply Hk. now apply elem_of_map_to_list.
  - intros id Hn. rewrite Ho; [assumption |]. intros H.
    apply list_elem_of_fmap in H as ([id' c] & -> & H).
    apply elem_of_map_to_list in H. cbn in Hn. congruence.
Qed.

Lemma after_call (c : Call) (w : World) :
  after (call clock c) w
  = match c with
    | CallTrack m => after (track clock m) w
    | CallTimeout requestId reason => after (timeout clock requestId reason) w
    | CallCheckTimeouts => after (checkTimeouts clock) w
    | CallCleanup olderThanMs => after (cleanup clock olderThanMs) w
    | CallGet _ | CallList _ _ _ => w
    end.
Proof. destruct c; cbn [call]; now rewrite after_bind. Qed.

Lemma after_callAll_cons (c : Call) (cs : list Call) (w : World) :
  after (callAll clock (c :: cs)) w
  = after (callAll clock cs) (after (call clock c) w).
Proof. cbn [callAll]. now rewrite after_bind. Qed.

(** One call, seen from one identifier: the record is left alone, written
    by [track], timed out, or deleted by [cleanup]. *)
Lemma call_cases (c : Call) (w : World) (id : jsstring) :
  let w' := after (call clock c) w in
  disk w' !! id = disk w !! id
  \/ (exists m c',
        c = CallTrack m /\ id = keyOf (Parser.requestId m)
        /\ disk w' !! id = Some c'
        /\ answer (track clock m) w = Some c'
        /\ lastType c' = Some (Parser.type m)
        /\ match disk w !! id with
           | Some conv =>
               extends conv c'
               /\ status c' =
                    if str_eqb (Parser.type m) Parser.RESPONSE
                    then or_text (Parser.status m) s_done
                    else if str_eqb (Parser.type m) Parser.CLARIFY
                         then s_clarifying else status conv
           | None =>
               type c' = Parser.type m /\ to c' = Parser.to m
               /\ from c' = Parser.from m
               /\ (exists now,
                     createdAt c' = now
                     /\ history c' = [trackedEntry now m])
               /\ depth c' =
                    match Parser.depth m with
                    | Parser.DepthPair current _ => Some current
                    | Parser.DepthText (_ :: _) => None
                    | _ => Some 1%N
                    end
               /\ status c' =
                    if str_eqb (Parser.type m) Parser.RESPONSE
                    then or_text (Parser.status m) s_done
                    else s_open
           end)
  \/ (exists old reason t1 t2,
        disk w !! id = Some old
        /\ disk w' !! id = Some (markTimedOut old reason t1 t2)
        /\ (housekeeping c = true
            -> stalled (clock (reads w)) old = true))
  \/ (exists old,
        keepsRecords c = false
        /\ disk w !! id = Some old /\ disk w' !! id = None
        /\ includes cleanupStatuses (status old) = true).
Proof.
  intros w'. subst w'. rewrite after_call.
  destruct c as [m | rid reason | | lim | rid | st fr t_].
  - destruct (track_record m w) as (c' & Hd & Ha & _ & Hlt & Hrec).
    cbv zeta in Hd, Hrec. rewrite Hd.
    destruct (decide (keyOf (Parser.requestId m) = id)) as [<- | Hne].
    + right. left. exists m, c'. rewrite lookup_insert_eq.
      split_ands; try reflexivity; try assumption.
      destruct (disk w !! keyOf (Parser.requestId m)).
      * now destruct Hrec as (? & _ & ?).
      * destruct Hrec as (? & ? & ? & ? & ? & ? & ?).
        split_ands; try assumption. eauto.
    + left. now apply lookup_insert_ne.
  - destruct (disk w !! rid) as [old |] eqn:E.
    + destruct (timeout_effect clock rid reason w old E) as [-> _].
      destruct (decide (rid = id)) as [<- | Hne].
      * right. right. left. eexists old, _, _, _. rewrite lookup_insert_eq.
        split_ands; try reflexivity; try assumption. discriminate.
      * left. now apply lookup_insert_ne.
    + left. now rewrite timeout_unknown.
  - destruct (sweep_effect w) as (_ & Ht & Hk & Hn). cbv zeta in Ht, Hk, Hn.
    destruct (disk w !! id) as [old |] eqn:E.
    + destruct (stalled (clock (reads w)) old) eqn:Es.
      * destruct (Ht id old E Es) as (reason & t1 & t2 & H).
        right. right. left. exists old, reason, t1, t2. now split_ands.
      * left. now apply Hk.
    + left. now apply Hn.
  - destruct (cleanup_effect clock lim w) as [Hl _]. cbv zeta in Hl.
    rewrite Hl. destruct (disk w !! id) as [old |] eqn:E; [| now left].
    destruct (removable _ _ _ old) eqn:Er; [| now left].
    right. right. right. exists old. split_ands; try reflexivity.
    unfold removable in Er. now apply andb_true_iff in Er as [Er _].
  - now left.
  - now left.
Qed.

End StoreCalls.

Section StoreInvariants.

Import StateStore.

Variable clock : nat -> Z.

Lemma extends_refl (c : Conversation) : extends c c.
Proof.
  unfold extends. split_ands; try reflexivity.
  exists []. now rewrite app_nil_r.
Qed.

Lemma extends_trans (a b c : Conversation) :
  extends a b -> extends b c -> extends a c.
Proof.
  intros (H1 & H2 & H3 & H4 & H5 & H6 & m1 & H7)
         (G1 & G2 & G3 & G4 & G5 & G6 & m2 & G7).
  unfold extends. split_ands; try congruence.
  exists (m1 ++ m2). now rewrite G7, H7, app_assoc.
Qed.

Lemma extends_markTimedOut (c : Conversation) reason t1 t2 :
  extends c (markTimedOut c reason t1 t2).
Proof. unfold extends. cbn. split_ands; try reflexivity. now eexists. Qed.






(** Without [cleanup] a conversation is never lost and its history only
    grows: after any calls of [track], [timeout], [checkTimeouts], [get]
    and [list] the record is still there, with the type, recipient,
    sender, task, depth and time of creation it had, and a history that
    starts with the history it had. *)
Theorem history_append_only (cs : list Call) (w : World) (id : jsstring)
    (c : Conversation) :
  forallb keepsRecords cs = true ->
  disk w !! id = Some c ->
  exists c',
    disk (after (callAll clock cs) w) !! id = Some c' /\ extends c c'.
Proof.
  revert w c. induction cs as [| k cs IH]; intros w c Hk Hc.
  - exists c. split; [assumption | apply extends_refl].
  - cbn [forallb] in Hk. apply andb_true_iff in Hk as [Hk Hcs].
    rewrite after_callAll_cons.
    assert (Hstep : exists c1, disk (after (call clock k) w) !! id = Some c1
                               /\ extends c c1).
    { destruct (call_cases clock k w id)
        as [H | [(m & c' & -> & -> & Hd & _ & _ & Hrec)
                | [(old & reason & t1 & t2 & Ho & Hd & _)
                  | (old & Hdel & _)]]].
      - exists c. rewrite H. split; [assumption | apply extends_refl].
      - exists c'. split; [assumption |]. rewrite Hc in Hrec.
        now destruct Hrec.
      - rewrite Hc in Ho. injection Ho as <-. eexists. split; [exact Hd |].
        apply extends_markTimedOut.
      - congruence. }
    destruct Hstep as (c1 & Hc1 & He1).
    destruct (IH _ c1 Hcs Hc1) as (c' & Hc' & He').
    exists c'. split; [assumption |]. now apply extends_trans with c1.
Qed.

(** *** Housekeeping *)

Lemma closed_not_stalled (now : Z) (c : Conversation) :
  status c <> s_open -> status c <> s_clarifying -> stalled now c = false.
Proof.
  intros H1 H2. unfold stalled.
  destruct (str_eqb (status c) s_open) eqn:E1;
    [now apply str_eqb_eq in E1 |].
  destruct (str_eqb (status c) s_clarifying) eqn:E2;
    [now apply str_eqb_eq in E2 | reflexivity].
Qed.

(** Housekeeping leaves a closed conversation as it is, or deletes it. *)
Lemma housekeeping_closed (cs : list Call) (w : World) (id : jsstring)
    (c : Conversation) :
  forallb housekeeping cs = true ->
  disk w !! id = Some c ->
  status c <> s_open -> status c <> s_clarifying ->
  disk (after (callAll clock cs) w) !! id = Some c
  \/ (includes cleanupStatuses (status c) = true
      /\ disk (after (callAll clock cs) w) !! id = None).
Proof.
  revert w. induction cs as [| k cs IH]; intros w Hk Hc H1 H2; [now left |].
  cbn [forallb] in Hk. apply andb_true_iff in Hk as [Hk Hcs].
  rewrite after_callAll_cons.
  destruct (call_cases clock k w id)
    as [H | [(m & c' & -> & _) | [(old & reason & t1 & t2 & Ho & _ & Hs)
                                 | (old & _ & Ho & Hd & Hin)]]].
  - apply IH; try assumption. now rewrite H.
  - discriminate Hk.
  - rewrite Hc in Ho. injection Ho as <-.
    rewrite closed_not_stalled in Hs by assumption. now discriminate Hs.
  - rewrite Hc in Ho. injection Ho as <-. right. split; [assumption |].
    clear -Hd Hcs. revert Hd. generalize (after (call clock k) w).
    induction cs as [| k' cs IH']; intros w' Hd; [assumption |].
    cbn [forallb] in Hcs. apply andb_true_iff in Hcs as [Hk' Hcs].
    rewrite after_callAll_cons. apply IH'; [assumption |].
    destruct (call_cases clock k' w' id)
      as [H | [(m & c' & -> & _) | [(old & ? & ? & ? & Ho & _)
                                   | (old & _ & Ho & _)]]];
      congruence || discriminate.
Qed.


(** A conversation answered with a partial result stays in the store for
    good: no sweep flags it and no clean-up, with whatever threshold,
    deletes it; the record is not touched until a message is tracked
    for it or [timeout] is called on it. *)
Theorem partial_never_collected (cs : list Call) (w : World)
    (id : jsstring) (c : Conversation) :
  forallb housekeeping cs = true ->
  disk w !! id = Some c ->
  status c = s_partial ->
  disk (after (callAll clock cs) w) !! id = Some c.
Proof.
  intros Hcs Hc Hst.
  destruct (housekeeping_closed cs w id c Hcs Hc) as [H | [H _]].
  - rewrite Hst. discriminate.
  - rewrite Hst. discriminate.
  - assumption.
  - rewrite Hst in H. discriminate H.
Qed.

(** A message restarts the window of its conversation: a sweep that
    comes no more than five minutes (the shortest window of the table)
    after [track] does not flag the conversation, whatever its type and
    status. *)
Theorem fresh_message_not_flagged (m : Parser.Message) (w : World) :
  (clock (S (reads w)) - clock (reads w) <= 5 * 60 * 1000)%Z ->
  keyOf (Parser.requestId m)
    ∉ answer (checkTimeouts clock) (after (track clock m) w).
Proof.
  intros Hsoon.
  destruct (track_effect clock m w) as (c' & Hd & _ & Hreads & Hup & _).
  cbv zeta in Hd.
  destruct (sweep_effect clock (after (track clock m) w)) as (Hids & _).
  cbv zeta in Hids. rewrite Hids, Hreads, Hd, lookup_insert_eq.
  intros (c & [= <-] & Hs). unfold stalled in Hs.
  apply andb_true_iff in Hs as [_ Hs]. apply Z.ltb_lt in Hs.
  rewrite Hup in Hs.
  assert (Hw : (5 <= windowMinutes (messageTypeOf c'))%Z).
  { unfold windowMinutes. split_ifs; lia. }
  lia.
Qed.

(** A sweep flags a conversation once: what one sweep returned, the next
    sweep does not return again. *)
Theorem sweep_flags_once (w : World) (id : jsstring) :
  id ∈ answer (checkTimeouts clock) w ->
  id ∉ answer (checkTimeouts clock) (after (checkTimeouts clock) w).
Proof.
  intros H.
  destruct (sweep_effect clock w) as (Hids & Ht & _). cbv zeta in Hids, Ht.
  apply Hids in H as (c & Hc & Hs).
  destruct (Ht id c Hc Hs) as (reason & t1 & t2 & Hc').
  destruct (sweep_effect clock (after (checkTimeouts clock) w))
    as (Hids' & _). cbv zeta in Hids'.
  rewrite Hids'. intros (c'' & Hc'' & Hs'). rewrite Hc' in Hc''.
  injection Hc'' as <-. now rewrite closed_not_stalled in Hs'.
Qed.

End StoreInvariants.


Lemma history_append_only_witness :
  exists c c',
    StateStore.disk clarifyingWorld !! js "lotbot-abc123" = Some c
    /\ StateStore.disk
         (after (callAll slowClock
                   [CallCheckTimeouts;
                    CallTimeout (js "lotbot-abc123") (js "again")])
            clarifyingWorld)
         !! js "lotbot-abc123" = Some c'
    /\ extends c c'.
Proof.
  destruct (StateStore.disk clarifyingWorld !! js "lotbot-abc123")
    as [c |] eqn:E; [| vm_compute in E; discriminate E].
  destruct (history_append_only slowClock
              [CallCheckTimeouts;
               CallTimeout (js "lotbot-abc123") (js "again")]
              clarifyingWorld (js "lotbot-abc123") c eq_refl E)
    as (c' & Hc' & He).
  exists c, c'. split; [reflexivity |]. split; assumption.
Defined.


Lemma partial_never_collected_witness :
  exists c,
    StateStore.disk partialWorld !! js "lotbot-abc123" = Some c
    /\ StateStore.disk
         (after (callAll tickingClock
                   [CallCheckTimeouts; CallCleanup (Some 0%Z);
                    CallCheckTimeouts])
            partialWorld)
         !! js "lotbot-abc123" = Some c.
Proof.
  destruct (StateStore.disk partialWorld !! js "lotbot-abc123")
    as [c |] eqn:E; [| vm_compute in E; discriminate E].
  exists c. split; [reflexivity |].
  apply (partial_never_collected tickingClock
           [CallCheckTimeouts; CallCleanup (Some 0%Z); CallCheckTimeouts]
           partialWorld (js "lotbot-abc123") c eq_refl E).
  assert (Hc : StateStore.disk partialWorld !! js "lotbot-abc123"
               = Some c) by exact E.
  vm_compute in Hc. injection Hc as <-. reflexivity.
Defined.

Lemma sweep_flags_once_witness :
  js "lotbot-abc123"
    ∉ answer (StateStore.checkTimeouts slowClock)
        (after (StateStore.checkTimeouts slowClock) clarifyingWorld).
Proof.
  apply sweep_flags_once.
  assert (E : answer (StateStore.checkTimeouts slowClock) clarifyingWorld
              = [js "lotbot-abc123"]) by by_compute.
  rewrite E. apply list_elem_of_here.
Defined.

Lemma fresh_message_not_flagged_witness :
  js "lotbot-abc123"
    ∉ answer (StateStore.checkTimeouts tickingClock)
        (after (StateStore.track tickingClock validRequestMessage)
           emptyWorld).
Proof.
  apply (fresh_message_not_flagged tickingClock validRequestMessage
           emptyWorld).
  vm_compute. discriminate.
Defined.

(** * Values that are not fit for the wire *)

Section LineFeedInValue.

Import Parser.






End LineFeedInValue.


Section SweepDetails.

Import StateStore.

Variable clock : nat -> Z.

(** One iteration of the sweep on a stalled record, with the reason it
    writes. *)
Lemma checkEntry_reason (now : Z) (acc : list jsstring) id c (w : World) :
  disk w !! id = Some c ->
  stalled now c = true ->
  checkEntry clock now acc (id, c) w
  = (acc ++ [id],
     {| disk := <[id := markTimedOut c (sweepReason now c) (clock (reads w))
                           (clock (S (reads w)))]> (disk w);
        reads := S (S (reads w)) |}).
Proof.
  intros Hc Hs. unfold stalled in Hs. apply andb_true_iff in Hs as [Hopen Hage].
  unfold checkEntry. rewrite <- negb_orb, Hopen, timeoutMsOf_table.
  cbn [negb num_gt]. rewrite Z.gtb_ltb, Hage.
  unfold bind, timeout, loadState, dateNow, saveState, ret.
  cbn. rewrite Hc. reflexivity.
Qed.

Lemma after_forEach_cons {A B} (x : A) (xs : list A) (body : B -> A -> M B)
    (b : B) (w : World) :
  after (forEach (x :: xs) body b) w
  = after (forEach xs body (answer (body b x) w)) (after (body b x) w).
Proof. cbn [forEach]. apply after_bind. Qed.

Lemma sweep_loop_reason (now : Z) (l : list (jsstring * Conversation))
    (acc : list jsstring) (w : World) :
  NoDup l.*1 ->
  (forall id c, (id, c) ∈ l -> disk w !! id = Some c) ->
  forall id c,
    (id, c) ∈ l -> stalled now c = true ->
    exists k,
      reads w <= k
      /\ disk (after (forEach l (checkEntry clock now) acc) w) !! id
         = Some (markTimedOut c (sweepReason now c) (clock k) (clock (S k))).
Proof.
  revert acc w. induction l as [| [i c0] l IH]; intros acc w Hnd Hin id c Hl Hs.
  - now apply elem_of_nil in Hl.
  - cbn [fmap list_fmap fst] in Hnd. apply NoDup_cons in Hnd as [Hi Hnd].
    assert (Hic : disk w !! i = Some c0) by (apply Hin; left).
    rewrite after_forEach_cons.
    assert (Hkeep : forall w1 id' c',
               (forall j, j <> i -> disk w1 !! j = disk w !! j) ->
               (id', c') ∈ l -> disk w1 !! id' = Some c').
    { intros w1 id' c' Hw1 H. rewrite Hw1.
      - apply Hin. now right.
      - intros ->. apply Hi. now apply (list_elem_of_fmap_2 fst) in H. }
    apply elem_of_cons in Hl as [[= -> ->] | Hl].
    + unfold after at 2, answer. rewrite checkEntry_reason by assumption.
      cbn [fst snd].
      set (w1 := {| disk := _; reads := _ |}).
      destruct (checkTimeouts_loop clock now l (acc ++ [i]) w1 Hnd)
        as (ids & w' & Hf & _ & _ & _ & Ho).
      { intros id' c' H. apply (Hkeep w1 id' c'); [| assumption].
        intros j Hj. subst w1. cbn. now apply lookup_insert_ne. }
      exists (reads w). split; [lia |].
      unfold after. rewrite Hf. cbn [snd]. rewrite Ho by assumption.
      subst w1. cbn. apply lookup_insert_eq.
    + destruct (stalled now c0) eqn:Es0.
      * unfold after at 2, answer. rewrite checkEntry_reason by assumption.
        cbn [fst snd].
        set (w1 := {| disk := _; reads := _ |}).
        destruct (IH (acc ++ [i]) w1 Hnd) with (id := id) (c := c)
          as (k & Hk & Hd); try assumption.
        { intros id' c' H. apply (Hkeep w1 id' c'); [| assumption].
          intros j Hj. subst w1. cbn. now apply lookup_insert_ne. }
        exists k. split; [subst w1; cbn in Hk; lia | assumption].
      * pose proof (checkEntry_effect clock now acc i c0 w Hic) as He.
        rewrite Es0 in He. unfold after at 2, answer. rewrite He.
        cbn [fst snd].
        apply IH; try assumption.
        intros id' c' H. apply Hin. now right.
Qed.

(** What a sweep writes on a conversation it flags: the status [timeout],
    the time of the update, read from the clock after the sweep started,
    and one more entry on the history, of type TIMEOUT, whose reason gives
    the whole minutes since the last update, which are at least the
    minutes of the window. *)
Theorem sweep_reason (w : World) (id : jsstring) :
  id ∈ answer (checkTimeouts clock) w ->
  let now := clock (reads w) in
  exists c c' k,
    disk w !! id = Some c
    /\ disk (after (checkTimeouts clock) w) !! id = Some c'
    /\ status c' = s_timeout
    /\ reads w < k /\ updatedAt c' = clock k
    /\ history c'
       = history c ++ [TIMEOUT (sweepReason now c) (clock (S k))]
    /\ (windowMinutes (messageTypeOf c) <= minutesSince now c)%Z.
Proof.
  intros H now.
  destruct (sweep_effect clock w) as (Hids & _). cbv zeta in Hids.
  apply Hids in H as (c & Hc & Hs). fold now in Hs.
  set (w1 := {| disk := disk w; reads := S (reads w) |}).
  destruct (sweep_loop_reason now (map_to_list (disk w)) [] w1)
    with (id := id) (c := c) as (k & Hk & Hd); try assumption.
  { apply NoDup_fst_map_to_list. }
  { intros i c0. apply elem_of_map_to_list. }
  { now apply elem_of_map_to_list. }
  exists c, (markTimedOut c (sweepReason now c) (clock k) (clock (S k))), k.
  split_ands; try reflexivity; try assumption.
  unfold stalled in Hs. apply andb_true_iff in Hs as [_ Hs].
  apply Z.ltb_lt in Hs. unfold minutesSince.
  apply Z.div_le_lower_bound; [lia |].
  apply Z.div_le_lower_bound; lia.
Qed.



End SweepDetails.

Lemma sweep_reason_witness :
  exists c',
    StateStore.disk
      (after (StateStore.checkTimeouts slowClock) clarifyingWorld)
      !! js "lotbot-abc123" = Some c'
    /\ List.last (StateStore.history c') (StateStore.TIMEOUT [] 0)
       = StateStore.TIMEOUT (js "No response after 11 minutes")
           (slowClock 4).
Proof.
  assert (E : answer (StateStore.checkTimeouts slowClock) clarifyingWorld
              = [js "lotbot-abc123"]) by by_compute.
  assert (Hin : js "lotbot-abc123"
                  ∈ answer (StateStore.checkTimeouts slowClock)
                      clarifyingWorld)
    by (rewrite E; apply list_elem_of_here).
  destruct (sweep_reason slowClock clarifyingWorld (js "lotbot-abc123") Hin)
    as (c & c' & k & Hc & Hc' & _).
  exists c'. split; [exact Hc' |].
  vm_compute in Hc'. injection Hc' as <-. reflexivity.
Defined.
